(** * place-ui: the remote-grid synchronisation engine

    A shallow embedding of the canvas store ([src/store/canvasStore.ts]),
    the chunk loader of [src/components/canvas/Canvas.tsx], the throttled
    provider and the transaction helper of [lib/web3utils.ts], the contract
    service of [src/api/canvasService.ts] and the service initialisation of
    [src/components/providers/CanvasServiceProvider.tsx].

    Conventions.  JavaScript numbers that the program only ever uses as
    integers (grid coordinates, sizes, counters, delays) are [Z]; the
    viewport scale and offsets, which are fractional after a zoom, are
    rationals [Q] and [Math.floor]/[Math.ceil] are [Qfloor]/[Qceiling]
    (floating-point rounding is not modelled).  A JavaScript object used as
    a dictionary is a [gmap string _].  An array slot holding [undefined] is
    [None].  Promises are modelled by their settlement. *)

From Stdlib Require Import ZArith QArith Qround Qminmax Ascii String Lia Lra Lqa.
From stdpp Require Import base option list strings pretty gmap.

Close Scope Q_scope.
Local Open Scope Z_scope.

(* ===================================================================== *)
(** ** Data model ([src/types/index.ts], [config/constants.ts])           *)
(* ===================================================================== *)

Module Pixel.
Record t := mk {
  x : Z;
  y : Z;
  color : string;
  lastPainted : option Z
}.
End Pixel.

(** [CanvasChunk = Pixel[][]]; a slot may hold [undefined] ([None]). *)
Abbreviation CanvasChunk := (list (list (option Pixel.t))).

Record ViewportState := mkViewport {
  scale : Q;
  offsetX : Q;
  offsetY : Q;
  selectedX : option Z;
  selectedY : option Z
}.

Definition DEFAULT_CANVAS_WIDTH : Z := 100.
Definition DEFAULT_CANVAS_HEIGHT : Z := 100.
Definition DEFAULT_CHUNK_SIZE : Z := 20.
Definition DEFAULT_COLOR : string := "#EFEFEF".

(** A string without a comma. *)
Definition commaFree (s : string) : Prop :=
  Forall (λ c, c ≠ ","%char) (list_ascii_of_string s).

(** [arr[i]] for a numeric index: [undefined] outside the array. *)
Definition index {A} (l : list A) (i : Z) : option A :=
  if i <? 0 then None else l !! Z.to_nat i.

(** [Math.floor(a / b)] and [Math.ceil(a / b)] on integers. *)
Definition floor_div (a b : Z) : Z := a / b.
Definition ceil_div (a b : Z) : Z := - ((- a) / b).

(** [for (let v = start; v < stop; v += step) out.push(v)].  The fuel is
  the number of iterations allowed; [stop - start] of them are enough
  for every positive step. *)
Fixpoint range_by (fuel : nat) (start stop step : Z) : list Z :=
  match fuel with
  | O => []
  | S fuel' =>
      if start <? stop then start :: range_by fuel' (start + step) stop step
      else []
  end.

(* ===================================================================== *)
(** ** The canvas store ([src/store/canvasStore.ts])                      *)
(* ===================================================================== *)

Module CanvasStore.

Record t := mk {
  canvasWidth : Z;
  canvasHeight : Z;
  chunkSize : Z;
  chunks : gmap string CanvasChunk;
  loadingChunks : gmap string bool;
  viewport : ViewportState
}.

Definition initial : t :=
  {| canvasWidth := DEFAULT_CANVAS_WIDTH;
     canvasHeight := DEFAULT_CANVAS_HEIGHT;
     chunkSize := DEFAULT_CHUNK_SIZE;
     chunks := ∅;
     loadingChunks := ∅;
     viewport := mkViewport (10 # 1) (0 # 1) (0 # 1) None None |}.

(** [`${startX},${startY}`] *)
Definition getChunkKey (startX startY : Z) : string :=
  pretty startX +:+ "," +:+ pretty startY.

Definition setDimensions (width height : Z) (s : t) : t :=
  {| canvasWidth := width; canvasHeight := height;
     chunkSize := chunkSize s; chunks := chunks s;
     loadingChunks := loadingChunks s; viewport := viewport s |}.

Definition setChunk (startX startY : Z) (chunk : CanvasChunk) (s : t) : t :=
  let chunkKey := getChunkKey startX startY in
  {| canvasWidth := canvasWidth s; canvasHeight := canvasHeight s;
     chunkSize := chunkSize s;
     chunks := <[chunkKey := chunk]> (chunks s);
     loadingChunks := <[chunkKey := false]> (loadingChunks s);
     viewport := viewport s |}.

Definition setChunkLoading (startX startY : Z) (isLoading : bool) (s : t) : t :=
  let chunkKey := getChunkKey startX startY in
  {| canvasWidth := canvasWidth s; canvasHeight := canvasHeight s;
     chunkSize := chunkSize s;
     chunks := chunks s;
     loadingChunks := <[chunkKey := isLoading]> (loadingChunks s);
     viewport := viewport s |}.

(** The pixel written by [updatePixel]: [{...old, color, lastPainted}]. *)
Definition repaint (color : string) (now : Z) (p : Pixel.t) : Pixel.t :=
  {| Pixel.x := Pixel.x p; Pixel.y := Pixel.y p;
     Pixel.color := color; Pixel.lastPainted := Some now |}.

(** The body of the updater passed to [set] once the chunk is known to be
    loaded: copy the rows, overwrite the slot if it holds a pixel. *)
Definition paintInChunk (relativeX relativeY : Z) (color : string) (now : Z)
    (chunk : CanvasChunk) : CanvasChunk :=
  match index chunk relativeY with
  | Some row =>
      match index row relativeX with
      | Some (Some p) =>
          <[Z.to_nat relativeY :=
              <[Z.to_nat relativeX := Some (repaint color now p)]> row]> chunk
      | _ => chunk
      end
  | None => chunk
  end.

(** [now] is the value of [Date.now()] at the call. *)
Definition updatePixel (x y : Z) (color : string) (now : Z) (s : t) : t :=
  let chunkStartX := floor_div x (chunkSize s) * chunkSize s in
  let chunkStartY := floor_div y (chunkSize s) * chunkSize s in
  let chunkKey := getChunkKey chunkStartX chunkStartY in
  match chunks s !! chunkKey with
  | None => s
  | Some chunk =>
      let newChunk :=
        paintInChunk (x - chunkStartX) (y - chunkStartY) color now chunk in
      {| canvasWidth := canvasWidth s; canvasHeight := canvasHeight s;
         chunkSize := chunkSize s;
         chunks := <[chunkKey := newChunk]> (chunks s);
         loadingChunks := loadingChunks s;
         viewport := viewport s |}
  end.

Definition setViewport (v : ViewportState) (s : t) : t :=
  {| canvasWidth := canvasWidth s; canvasHeight := canvasHeight s;
     chunkSize := chunkSize s; chunks := chunks s;
     loadingChunks := loadingChunks s; viewport := v |}.

Definition setScale (sc : Q) (s : t) : t :=
  let v := viewport s in
  setViewport (mkViewport (Qmax (1 # 1) (Qmin (40 # 1) sc))
                 (offsetX v) (offsetY v) (selectedX v) (selectedY v)) s.

Definition setOffset (ox oy : Q) (s : t) : t :=
  let v := viewport s in
  setViewport (mkViewport (scale v) ox oy (selectedX v) (selectedY v)) s.

Definition getPixel (x y : Z) (s : t) : option Pixel.t :=
  let chunkStartX := floor_div x (chunkSize s) * chunkSize s in
  let chunkStartY := floor_div y (chunkSize s) * chunkSize s in
  match chunks s !! getChunkKey chunkStartX chunkStartY with
  | None => None
  | Some chunk =>
      match index chunk (y - chunkStartY) with
      | Some row =>
          match index row (x - chunkStartX) with
          | Some (Some p) => Some p
          | _ => None
          end
      | None => None
      end
  end.

(** The browser window, read by [getVisibleChunks]. *)
Record Window := mkWindow { innerWidth : Z; innerHeight : Z }.

Record ChunkOrigin := mkOrigin { startX : Z; startY : Z }.

(** The visible cell rectangle, [visibleStart] inclusive and
    [visibleEnd] exclusive, as the first four lines compute it. *)
Definition visibleStartX (s : t) : Z :=
  Z.max 0 (Qfloor (Qdiv (Qopp (offsetX (viewport s))) (scale (viewport s)))).
Definition visibleStartY (s : t) : Z :=
  Z.max 0 (Qfloor (Qdiv (Qopp (offsetY (viewport s))) (scale (viewport s)))).
Definition visibleEndX (w : Window) (s : t) : Z :=
  Z.min (canvasWidth s)
    (Qceiling (Qdiv (Qminus (inject_Z (innerWidth w)) (offsetX (viewport s)))
                    (scale (viewport s)))).
Definition visibleEndY (w : Window) (s : t) : Z :=
  Z.min (canvasHeight s)
    (Qceiling (Qdiv (Qminus (inject_Z (innerHeight w)) (offsetY (viewport s)))
                    (scale (viewport s)))).

Definition getVisibleChunks (w : Window) (s : t) : list ChunkOrigin :=
  let cs := chunkSize s in
  let startChunkX := floor_div (visibleStartX s) cs * cs in
  let startChunkY := floor_div (visibleStartY s) cs * cs in
  let endChunkX := ceil_div (visibleEndX w s) cs * cs in
  let endChunkY := ceil_div (visibleEndY w s) cs * cs in
  y ← range_by (Z.to_nat (endChunkY - startChunkY)) startChunkY endChunkY cs;
  x ← range_by (Z.to_nat (endChunkX - startChunkX)) startChunkX endChunkX cs;
  [mkOrigin x y].

(** A cell is visible when it lies in the clamped visible rectangle. *)
Definition visible (w : Window) (s : t) (cx cy : Z) : Prop :=
  visibleStartX s <= cx < visibleEndX w s ∧
  visibleStartY s <= cy < visibleEndY w s.

(** The cells of the chunk anchored at an origin: [chunkSize] wide and
    high, truncated at the grid edge (the loader requests
    [min(chunkSize, width - startX)] columns). *)
Definition inChunk (s : t) (c : ChunkOrigin) (cx cy : Z) : Prop :=
  startX c <= cx < Z.min (startX c + chunkSize s) (canvasWidth s) ∧
  startY c <= cy < Z.min (startY c + chunkSize s) (canvasHeight s).

#[global] Instance visible_dec w s cx cy : Decision (visible w s cx cy).
Proof. unfold visible. apply _. Defined.

#[global] Instance inChunk_dec s c cx cy : Decision (inChunk s c cx cy).
Proof. unfold inChunk. apply _. Defined.

(** [chunk[i][j]]: [None] when the row or the slot is missing, [Some None]
    when the slot holds [undefined]. *)
Definition cellAt (chunk : CanvasChunk) (i j : Z) : option (option Pixel.t) :=
  row ← index chunk i; index row j.

(** The 100x100 default store, zoom 10, panned so that cell (5,5) is at
    the window's corner, in a 200x200 window: the visible cells are
    (5,5)-(25,25). *)
Definition scenario_store : CanvasStore.t :=
  setOffset (-50 # 1) (-50 # 1) initial.
Definition scenario_window : Window := mkWindow 200 200.

(** A 90x90 grid panned until its right edge meets the window's left
    edge: no cell is visible. *)
Definition offscreen_store : CanvasStore.t :=
  setOffset (-900 # 1) (0 # 1) (setDimensions 90 90 initial).
Definition offscreen_window : Window := mkWindow 800 600.

(** The default 100x100 grid panned past the window's left edge. *)
Definition panned_away : CanvasStore.t :=
  setOffset (-1000 # 1) (0 # 1) initial.

Definition setSelectedPixel (x y : option Z) (s : t) : t :=
  let v := viewport s in
  setViewport (mkViewport (scale v) (offsetX v) (offsetY v) x y) s.

Definition resetViewport (s : t) : t :=
  let v := viewport s in
  setViewport (mkViewport (10 # 1) (0 # 1) (0 # 1) (selectedX v) (selectedY v)) s.

(** The actions of the store, as a caller invokes them. *)
Inductive Action :=
| SetDimensions (width height : Z)
| SetChunk (startX startY : Z) (chunk : CanvasChunk)
| SetChunkLoading (startX startY : Z) (isLoading : bool)
| UpdatePixel (x y : Z) (color : string) (now : Z)
| SetScale (scale : Q)
| SetOffset (offsetX offsetY : Q)
| SetSelectedPixel (x y : option Z)
| ResetViewport.

Definition act (s : t) (a : Action) : t :=
  match a with
  | SetDimensions width height => setDimensions width height s
  | SetChunk startX startY chunk => setChunk startX startY chunk s
  | SetChunkLoading startX startY isLoading =>
      setChunkLoading startX startY isLoading s
  | UpdatePixel x y color now => updatePixel x y color now s
  | SetScale scale => setScale scale s
  | SetOffset offsetX offsetY => setOffset offsetX offsetY s
  | SetSelectedPixel x y => setSelectedPixel x y s
  | ResetViewport => resetViewport s
  end.

(** [chunk[i][j]] as [getPixel] reads it: a missing row, a missing slot and
    an [undefined] slot all give [null]. *)
Definition pixelAt (chunk : CanvasChunk) (i j : Z) : option Pixel.t :=
  default None (cellAt chunk i j).

End CanvasStore.


(* ===================================================================== *)
(** ** The chunk loader ([src/components/canvas/Canvas.tsx])              *)
(* ===================================================================== *)

Module Loader.
Import CanvasStore.

(** [loadVisibleChunks] is a [useCallback] closure over the [chunks] and
    [loadingChunks] that [useCanvasStore()] returned when the component
    rendered.  An invocation keeps these two objects for its whole run,
    across every [await]. *)
Record Snapshot := mkSnapshot {
  snapChunks : gmap string CanvasChunk;
  snapLoading : gmap string bool
}.

Definition render (s : CanvasStore.t) : Snapshot :=
  mkSnapshot (chunks s) (loadingChunks s).

(** How [await canvasService.getCanvasSection(...)] settles. *)
Inductive FetchResult :=
| Fetched (chunkData : CanvasChunk)
| Rejected.

(** An asynchronous invocation, suspended at its [await] for one chunk, with
    the origins its [for] loop has still to visit. *)
Inductive Task :=
| Loading (snap : Snapshot) (c : ChunkOrigin) (rest : list ChunkOrigin)
| Refreshing (c : ChunkOrigin) (rest : list ChunkOrigin)
| Finished.

(** [!chunks[chunkKey] && !loadingChunks[chunkKey]], on the closure's
    objects. *)
Definition needsLoad (snap : Snapshot) (c : ChunkOrigin) : bool :=
  let chunkKey := getChunkKey (startX c) (startY c) in
  match snapChunks snap !! chunkKey with
  | Some _ => false
  | None =>
      match snapLoading snap !! chunkKey with
      | Some true => false
      | _ => true
      end
  end.

(** The [for] loop of [loadVisibleChunks] from its head up to the next
    [await]: skip the origins the snapshot has, mark the first other one
    loading and suspend on its fetch. *)
Fixpoint loadLoop (snap : Snapshot) (todo : list ChunkOrigin)
    (s : CanvasStore.t) : CanvasStore.t * Task :=
  match todo with
  | [] => (s, Finished)
  | c :: rest =>
      if needsLoad snap c
      then (setChunkLoading (startX c) (startY c) true s, Loading snap c rest)
      else loadLoop snap rest s
  end.

(** A call of [loadVisibleChunks()] by the effect that follows a render of
    the current store. *)
Definition loadVisibleChunks (w : Window) (s : CanvasStore.t)
    : CanvasStore.t * Task :=
  loadLoop (render s) (getVisibleChunks w s) s.

(** The interval callback of [setupPeriodicUpdates]: it fetches every
    visible chunk, whatever its state. *)
Definition refreshLoop (todo : list ChunkOrigin) : Task :=
  match todo with
  | [] => Finished
  | c :: rest => Refreshing c rest
  end.

Definition periodicUpdate (w : Window) (s : CanvasStore.t) : Task :=
  refreshLoop (getVisibleChunks w s).

(** The continuation of a suspended invocation once its fetch settles. *)
Definition resume (t : Task) (r : FetchResult) (s : CanvasStore.t)
    : CanvasStore.t * Task :=
  match t with
  | Loading snap c rest =>
      match r with
      | Fetched chunkData =>
          loadLoop snap rest (setChunk (startX c) (startY c) chunkData s)
      | Rejected =>
          loadLoop snap rest (setChunkLoading (startX c) (startY c) false s)
      end
  | Refreshing c rest =>
      match r with
      | Fetched chunkData =>
          (setChunk (startX c) (startY c) chunkData s, refreshLoop rest)
      | Rejected => (s, refreshLoop rest)
      end
  | Finished => (s, Finished)
  end.

(** The store together with the invocations in flight.  Each event is one
    synchronous section between two suspension points. *)
Record System := mkSystem {
  store : CanvasStore.t;
  tasks : list Task
}.

Inductive Event :=
| Load                                    (* the effect calls loadVisibleChunks *)
| Tick                                    (* the refresh interval fires *)
| Settle (i : nat) (r : FetchResult)      (* the fetch of task i settles *)
| Painted (x y : Z) (color : string) (now : Z).  (* a PixelPainted event *)

Definition react (w : Window) (sys : System) (e : Event) : System :=
  match e with
  | Load =>
      let '(s, t) := loadVisibleChunks w (store sys) in
      mkSystem s (tasks sys ++ [t])
  | Tick =>
      mkSystem (store sys) (tasks sys ++ [periodicUpdate w (store sys)])
  | Settle i r =>
      match tasks sys !! i with
      | Some t =>
          let '(s, t') := resume t r (store sys) in
          mkSystem s (<[i := t']> (tasks sys))
      | None => sys
      end
  | Painted x y color now =>
      mkSystem (updatePixel x y color now (store sys)) (tasks sys)
  end.

Definition run (w : Window) (sys : System) (es : list Event) : System :=
  foldl (react w) sys es.

(** A key is present when [chunks[k]] is defined and loading when
    [loadingChunks[k]] is [true]. *)
Definition present (s : CanvasStore.t) (k : string) : bool :=
  bool_decide (is_Some (chunks s !! k)).
Definition loading (s : CanvasStore.t) (k : string) : bool :=
  bool_decide (loadingChunks s !! k = Some true).

(** No key is both present and loading. *)
Definition exclusive (s : CanvasStore.t) : Prop :=
  ∀ k, ¬ (is_Some (chunks s !! k) ∧ loadingChunks s !! k = Some true).

(** A one-pixel chunk, standing for any fetched data. *)
Definition fetched_data : CanvasChunk := [[Some (Pixel.mk 0 0 DEFAULT_COLOR None)]].

(** Three renders start three invocations of [loadVisibleChunks]; the
    fetches settle in the order they were issued. *)
Definition stale_trace : list Event :=
  [Load; Load; Load;
   Settle 0 (Fetched fetched_data);
   Settle 1 (Fetched fetched_data);
   Settle 2 (Fetched fetched_data);
   Settle 0 (Fetched fetched_data)].

End Loader.

(* ===================================================================== *)
(** ** The pointer handlers of the canvas ([src/components/canvas/Canvas.tsx]) *)
(* ===================================================================== *)

Module CanvasView.
Import CanvasStore.




(** [handleMouseMove] while the button is down. *)
Definition handleMouseMove (isMouseDown : bool) (movementX movementY : Q)
    (s : CanvasStore.t) : CanvasStore.t :=
  if isMouseDown then
    setOffset (Qplus (offsetX (viewport s)) movementX)
              (Qplus (offsetY (viewport s)) movementY) s
  else s.


End CanvasView.

(* ===================================================================== *)
(** ** The throttled provider and the contract helpers ([lib/web3utils.ts]) *)
(* ===================================================================== *)

Module Web3Utils.

(** The values that travel through [send]: JSON-RPC results and the mock
    responses of the table. *)
#[local] Set Warnings "-register-all".
Inductive Json :=
| JNull
| JNum (n : Z)
| JStr (s : string)
| JArr (items : list Json).

(** The transaction object of an [eth_call]: [params[0].to] and
    [params[0].data]. *)
Record CallObject := mkCall {
  to : option string;
  data : option string
}.

Record Request := mkRequest {
  method : string;
  params : list CallObject
}.

Record Issue := mkIssue {
  mockResponse : Json;
  logMessage : string
}.

(** The [knownIssues] table, in the order [Object.entries] lists it. *)
Definition knownIssues : list (string * Issue) :=
  [ ("0xd44d3394", mkIssue (JArr [JNum 0; JNum 0])
                     "Mocking response for HEIGHT contract call");
    ("0x69ea80d5", mkIssue (JArr [JNum 0; JNum 0])
                     "Mocking response for WIDTH contract call");
    ("0xbb3c358c", mkIssue (JArr [JNum 0; JNum 0])
                     "Mocking response for pixelFee contract call");
    ("0xe59252c9", mkIssue (JStr "0xFFFFFF")
                     "Mocking response for getPixelColor contract call");
    ("0xc58f4da7", mkIssue (JArr [JArr []])
                     "Mocking response for getCanvasSection contract call") ].

(** What the provider does that the outside can observe: the delays it
    awaits and the requests it hands to [super.send]. *)
Inductive Action :=
| Wait (ms : Z)
| Transmit (req : Request).

Record Provider := mkProvider {
  requestQueue : list Request;
  isProcessing : bool;
  maxBatchSize : Z;
  requestDelay : Z;
  maxTimeout : Z;
  trace : list Action
}.

Definition initial : Provider :=
  mkProvider [] false 1 50 20000 [].

(** [s.includes(t)] and [s.startsWith(t)]. *)
Fixpoint includes (t s : string) : bool :=
  String.prefix t s ||
  match s with
  | EmptyString => false
  | String _ rest => includes t rest
  end.
Definition startsWith (t s : string) : bool := String.prefix t s.

(** [for (const [signature, config] of Object.entries(this.knownIssues))
      if (functionSelector === signature) return config.mockResponse] *)
Fixpoint findIssue (functionSelector : string) (table : list (string * Issue))
    : option Issue :=
  match table with
  | [] => None
  | (signature, config) :: rest =>
      if String.eqb functionSelector signature then Some config
      else findIssue functionSelector rest
  end.

(** The first [if] of [send]: an [eth_call] whose [params[0].data] is a
    non-empty string is looked up by its first ten characters. *)
Definition knownIssue (r : Request) : option Issue :=
  if String.eqb (method r) "eth_call" then
    match params r with
    | call :: _ =>
        match data call with
        | Some d =>
            if String.eqb d "" then None
            else findIssue (String.substring 0 10 d) knownIssues
        | None => None
        end
    | [] => None
    end
  else None.

(** The second [if]: the ENS resolver selectors. *)
Definition isEnsCall (r : Request) : bool :=
  String.eqb (method r) "eth_call" &&
  match params r with
  | call :: _ =>
      let callData := default "" (data call) in
      startsWith "0x01ffc9a7" callData || startsWith "0x9061b923" callData
      || startsWith "0x3b3b57de" callData
  | [] => false
  end.

(** How the promise returned by [send] stands when [send] returns. *)
Inductive SendResult :=
| Resolved (v : Json)
| Queued.

Definition send (r : Request) (p : Provider) : SendResult * Provider :=
  match knownIssue r with
  | Some config => (Resolved (mockResponse config), p)
  | None =>
      if isEnsCall r then (Resolved JNull, p)
      else
        (Queued,
         mkProvider (requestQueue p ++ [r]) true (maxBatchSize p)
           (requestDelay p) (maxTimeout p) (trace p))
  end.

(** What [super.send] does with a request: it answers, it fails with an
    error message, or nothing comes back. *)
Inductive TransportReply :=
| Reply (v : Json)
| Fault (message : string)
| Silent.

(** How the promise of a queued request ends. *)
Inductive Settlement :=
| Resolve (v : Json)
| Reject (message : string)
| Unsettled.

Definition timeoutMessage (p : Provider) (r : Request) : string :=
  "Request timed out after " +:+ pretty (maxTimeout p) +:+ "ms: " +:+ method r.

Definition record (a : list Action) (p : Provider) : Provider :=
  mkProvider (requestQueue p) (isProcessing p) (maxBatchSize p)
    (requestDelay p) (maxTimeout p) (trace p ++ a).

(** The closure that [send] pushes on the queue, run by [processQueue].
    [first] is the fate of the request raced against the timeout, [retry]
    the fate of the one in the batch-size branch, which has no timeout. *)
Definition runRequest (r : Request) (first retry : TransportReply)
    (p : Provider) : Settlement * Provider :=
  let p1 := record [Wait (requestDelay p); Transmit r] p in
  match first with
  | Reply result => (Resolve result, p1)
  | _ =>
      let message :=
        match first with Fault m => m | _ => timeoutMessage p r end in
      if includes "Batch size is too large" message then
        let p2 :=
          mkProvider (requestQueue p1) (isProcessing p1) 1
            (requestDelay p1 + 50) (maxTimeout p1)
            (trace p1 ++ [Wait 500; Transmit r]) in
        match retry with
        | Reply retryResult => (Resolve retryResult, p2)
        | Fault retryError => (Reject retryError, p2)
        | Silent => (Unsettled, p2)
        end
      else if includes "timed out" message then
        if String.eqb (method r) "eth_call" then (Resolve (JStr "0x"), p1)
        else if String.eqb (method r) "eth_chainId" then (Resolve (JStr "0x1"), p1)
        else (Reject message, p1)
      else (Reject message, p1)
  end.

(** A session of the provider: callers invoke [send], and [processQueue]
    takes the request at the head of the queue and runs it. *)
Inductive Input :=
| Call (r : Request)
| Dispatch (first retry : TransportReply).

Definition step (p : Provider) (i : Input) : Provider :=
  match i with
  | Call r => (send r p).2
  | Dispatch first retry =>
      match requestQueue p with
      | [] => p
      | r :: rest =>
          (runRequest r first retry
             (mkProvider rest (bool_decide (rest ≠ [])) (maxBatchSize p)
                (requestDelay p) (maxTimeout p) (trace p))).2
      end
  end.

Definition session (inputs : list Input) : Provider :=
  foldl step initial inputs.

(** [config/contracts.ts]: the color conversions. *)
Definition padStart (n : nat) (c : ascii) (s : string) : string :=
  string_of_list_ascii (replicate (n - String.length s)%nat c) +:+ s.

(** [bytes3.substring(2).padStart(6, '0')] behind a [#]. *)
Definition bytes3ToHex (bytes3 : string) : string :=
  "#" +:+ padStart 6 "0"%char
            (String.substring 2 (String.length bytes3 - 2)%nat bytes3).

Definition hexToBytes3 (hexColor : string) : string :=
  "0x" +:+ (if startsWith "#" hexColor
            then String.substring 1 (String.length hexColor - 1)%nat hexColor
            else hexColor).

(** [rawData.map((row, y) => row.map((color, x) => ({x, y, color})))] *)
Definition processCanvasSectionData (rawData : list (list string))
    (startX startY : Z) : CanvasChunk :=
  imap (λ y row,
          imap (λ x color,
                  Some (Pixel.mk (startX + Z.of_nat x) (startY + Z.of_nat y)
                          (bytes3ToHex color) None)) row) rawData.

Record TransactionResult := mkResult {
  success : bool;
  transactionHash : option string;
  error : option string
}.

(** The fate of [contract.paintPixel(x, y, color, {value})]: a transaction
    with its hash, or an error with its [code] and [message]. *)
Inductive Submission :=
| Sent (hash : string)
| Refused (code : string) (message : string).

(** The fate of [tx.wait(1)] raced against the 20 s timer. *)
Inductive Confirmation :=
| Mined (blockNumber : Z)
| WaitFailed (message : string)
| TimedOut.

(** A transaction handed to the contract: [paintPixel(x, y, bytes3, value)]. *)
Record Submitted := mkSubmitted {
  subX : Z;
  subY : Z;
  subColor : string;
  subValue : Z
}.

(** [paintPixel(contract, x, y, color, fee)]; [hasRunner] is
    [!!contract.runner].  The second component lists the transactions the
    call handed to the contract. *)
Definition paintPixel (hasRunner : bool) (submit : Submission)
    (wait : Confirmation) (x y : Z) (color : string) (fee : Z)
    : TransactionResult * list Submitted :=
  let bytes3Color := hexToBytes3 color in
  if negb hasRunner then
    (mkResult false None (Some "Wallet not connected to contract"), [])
  else
    let sent := [mkSubmitted x y bytes3Color fee] in
    match submit with
    | Sent hash =>
        match wait with
        | Mined _ => (mkResult true (Some hash) None, sent)
        | WaitFailed _ | TimedOut =>
            (mkResult true (Some hash)
               (Some "Transaction sent but confirmation timed out. Check the transaction in block explorer."),
             sent)
        end
    | Refused code message =>
        if String.eqb code "INSUFFICIENT_FUNDS" then
          (mkResult false None (Some "Not enough ETH to cover the fee and gas"), sent)
        else if String.eqb code "ACTION_REJECTED" then
          (mkResult false None (Some "Transaction rejected by user"), sent)
        else
          (mkResult false None
             (Some (if String.eqb message "" then "Unknown error during transaction"
                    else message)), sent)
    end.

(** A request that [send] puts on the queue: neither a known issue nor an
    ENS call. *)
Definition queueable (r : Request) : Prop :=
  knownIssue r = None ∧ isEnsCall r = false.

(** The ENS selectors that [send] answers with [null]. *)
Definition ensSelectors : list string :=
  ["0x01ffc9a7"; "0x9061b923"; "0x3b3b57de"].

End Web3Utils.

(* ===================================================================== *)
(** ** The contract service ([src/api/canvasService.ts])                  *)
(* ===================================================================== *)

Module CanvasService.
Import Web3Utils.

Definition DEFAULT_WIDTH : Z := 100.
Definition DEFAULT_HEIGHT : Z := 100.
Definition MAX_CHUNK_SIZE : Z := 10.

(** [safeContractCall]: [call] is the settled contract call, [None] when it
    threw; the [catch] returns the default. *)
Definition safeContractCall {T} (call : option T) (defaultValue : T) : T :=
  match call with
  | Some result => result
  | None => defaultValue
  end.

Record Dimensions := mkDimensions { width : Z; height : Z }.

(** [getDimensions], given how [contract.WIDTH()] and [contract.HEIGHT()]
    settle. *)
Definition getDimensions (widthCall heightCall : option Z) : Dimensions :=
  mkDimensions (safeContractCall widthCall DEFAULT_WIDTH)
               (safeContractCall heightCall DEFAULT_HEIGHT).

(** The contract's [getCanvasSection(startX, startY, width, height)]:
    the decoded [bytes3[][]], or [None] when the call rejects. *)
Definition SectionCall := Z → Z → Z → Z → option (list (list string)).

(** The placeholder chunk built before fetching. *)
Definition placeholder (startX startY width height : Z) : CanvasChunk :=
  (λ y, (λ x, Some (Pixel.mk (startX + x) (startY + y) DEFAULT_COLOR None))
          <$> seqZ 0 width) <$> seqZ 0 height.

(** [result[r][c] = v]; every use below is inside the array. *)
Definition setCell (r c : Z) (v : option Pixel.t) (result : CanvasChunk)
    : CanvasChunk :=
  match index result r with
  | Some row => <[Z.to_nat r := <[Z.to_nat c := v]> row]> result
  | None => result
  end.

(** [for (x = 0; x < chunkWidth; x++)
      result[chunkY + y][chunkX + x] = chunkData[y][x]]
    for a row [chunkData[y]] that exists; a missing [chunkData[y][x]] is
    [undefined]. *)
Definition mergeRow (chunkX chunkY chunkWidth y : Z)
    (row : list (option Pixel.t)) (result : CanvasChunk) : CanvasChunk :=
  foldl (λ res x, setCell (chunkY + y) (chunkX + x)
                    (default None (index row x)) res)
        result (seqZ 0 chunkWidth).

(** The merge loop over the rows [ys].  Reading [chunkData[y][x]] on a
    missing row throws; the [catch] of the sub-chunk keeps what was merged
    so far. *)
Fixpoint mergeRows (chunkX chunkY chunkWidth : Z) (chunkData : CanvasChunk)
    (ys : list Z) (result : CanvasChunk) : CanvasChunk :=
  match ys with
  | [] => result
  | y :: ys' =>
      match index chunkData y with
      | Some row =>
          mergeRows chunkX chunkY chunkWidth chunkData ys'
            (mergeRow chunkX chunkY chunkWidth y row result)
      | None => result
      end
  end.

(** The body of the two sub-chunk loops: fetch, process, merge; a rejected
    fetch leaves the placeholders. *)
Definition fetchSubChunk (contract : SectionCall) (startX startY width height : Z)
    (chunkX chunkY : Z) (result : CanvasChunk) : CanvasChunk :=
  let chunkHeight := Z.min MAX_CHUNK_SIZE (height - chunkY) in
  let chunkWidth := Z.min MAX_CHUNK_SIZE (width - chunkX) in
  match contract (startX + chunkX) (startY + chunkY) chunkWidth chunkHeight with
  | Some rawData =>
      let chunkData :=
        processCanvasSectionData rawData (startX + chunkX) (startY + chunkY) in
      mergeRows chunkX chunkY chunkWidth chunkData (seqZ 0 chunkHeight) result
  | None => result
  end.

(** The value [getCanvasSection] resolves with.  No statement of the outer
    [try] can throw, so its [catch] is never entered. *)
Definition getCanvasSection (contract : SectionCall)
    (startX startY width height : Z) : CanvasChunk :=
  foldl (λ res chunkY,
           foldl (λ res' chunkX,
                    fetchSubChunk contract startX startY width height
                      chunkX chunkY res')
                 res (range_by (Z.to_nat width) 0 width MAX_CHUNK_SIZE))
        (placeholder startX startY width height)
        (range_by (Z.to_nat height) 0 height MAX_CHUNK_SIZE).

(** The sub-chunk request that covers the cell at offset (x, y). *)
Definition subChunkOf (contract : SectionCall) (startX startY width height x y : Z)
    : option (list (list string)) :=
  let chunkX := x / MAX_CHUNK_SIZE * MAX_CHUNK_SIZE in
  let chunkY := y / MAX_CHUNK_SIZE * MAX_CHUNK_SIZE in
  contract (startX + chunkX) (startY + chunkY)
    (Z.min MAX_CHUNK_SIZE (width - chunkX))
    (Z.min MAX_CHUNK_SIZE (height - chunkY)).

(** A contract whose answers have full rows: every row among the first
    [height] has at least [width] entries (there may be fewer rows). *)
Definition fullRows (contract : SectionCall) : Prop :=
  ∀ sx sy w h rawData y row,
    contract sx sy w h = Some rawData →
    0 <= y < h → rawData !! Z.to_nat y = Some row →
    w <= Z.of_nat (length row).

(** What the cell at offset (x, y) of a section must hold: a pixel with its
    coordinates, of the placeholder color when its sub-chunk fetch failed. *)
Definition cellOk (contract : SectionCall) (startX startY width height : Z)
    (x y : Z) (v : option Pixel.t) : Prop :=
  ∃ p, v = Some p ∧ Pixel.x p = startX + x ∧ Pixel.y p = startY + y ∧
       (subChunkOf contract startX startY width height x y = None →
        Pixel.color p = DEFAULT_COLOR).

(** [height] rows of [width] cells, each as [cellOk] asks. *)
Definition sectionOk (contract : SectionCall) (startX startY width height : Z)
    (result : CanvasChunk) : Prop :=
  length <$> result = replicate (Z.to_nat height) (Z.to_nat width) ∧
  ∀ x y, 0 <= x < width → 0 <= y < height →
         ∃ v, CanvasStore.cellAt result y x = Some v ∧
              cellOk contract startX startY width height x y v.

(** A contract that answers every request with one empty row. *)
Definition emptyRowContract : SectionCall := λ _ _ _ _, Some [[]].

(** A contract that rejects the requests for column 50 and answers the
    others with a red section of the requested size. *)
Definition patchyContract : SectionCall :=
  λ sx sy w h,
    if sx =? 50 then None
    else Some (replicate (Z.to_nat h) (replicate (Z.to_nat w) "0xff0000")).

(** [EthersCanvasService.paintPixel]: without a signer nothing is sent;
    otherwise the fee is read ([getCurrentFee] never throws) and the result
    of [Web3Utils.paintPixel] is passed on. *)
Definition paintPixel (hasSigner : bool) (feeCall : option Z)
    (submit : Submission) (wait : Confirmation) (x y : Z) (color : string)
    : TransactionResult * list Submitted :=
  if negb hasSigner then (mkResult false None (Some "Wallet not connected"), [])
  else
    let fee := safeContractCall feeCall 1000000000000000 in
    Web3Utils.paintPixel true submit wait x y color fee.

(** [getPixelColor], given how [contract.getPixelColor(x, y)] settles.  The
    fallback of [safeContractCall] goes through [bytes3ToHex] like a
    contract value. *)
Definition getPixelColor (colorCall : option string) : string :=
  bytes3ToHex (safeContractCall colorCall DEFAULT_COLOR).

(** A request to the contract's [getCanvasSection]. *)
Record SectionRequest := mkSectionRequest {
  reqX : Z;
  reqY : Z;
  reqWidth : Z;
  reqHeight : Z
}.

(** The requests the two sub-chunk loops of [getCanvasSection] make, in
    order. *)
Definition subRequests (startX startY width height : Z) : list SectionRequest :=
  chunkY ← range_by (Z.to_nat height) 0 height MAX_CHUNK_SIZE;
  chunkX ← range_by (Z.to_nat width) 0 width MAX_CHUNK_SIZE;
  [mkSectionRequest (startX + chunkX) (startY + chunkY)
     (Z.min MAX_CHUNK_SIZE (width - chunkX))
     (Z.min MAX_CHUNK_SIZE (height - chunkY))].

End CanvasService.

(** *** The reconnect logic of [onPixelPainted] *)

Module Subscription.

Definition MAX_RECONNECT_ATTEMPTS : Z := 5.
Definition RECONNECT_DELAY : Z := 2000.

(** The closure variables of [onPixelPainted], and the reconnect timer that
    is pending, if any, with its delay. *)
Record State := mkState {
  isConnected : bool;
  reconnectAttempts : Z;
  timer : option Z
}.

Definition initial : State := mkState true 0 None.

(** A [PixelPainted] event as the listener hands it to the owner. *)
Record PaintedEvent := mkPainted {
  evX : Z;
  evY : Z;
  evColor : string;
  evPainter : string
}.

(** Everything the subscription code does to the outside.  [Callback] is
    the call of the function the owner passed to [onPixelPainted]; it is the
    only way the code reaches its owner. *)
Inductive Effect :=
| ConsoleError (message : string)
| ConsoleWarn (message : string)
| ConsoleLog (message : string)
| SetTimeout (delay : Z)
| ContractOff
| ContractOn
| Callback (event : PaintedEvent).

(** How the body of the timer callback goes: [contract.off] and
    [contract.on] return, or one of them throws. *)
Inductive Reconnect :=
| Reattached
| OffThrows
| OnThrows.

Definition attemptReconnect (s : State) : State * list Effect :=
  if reconnectAttempts s <? MAX_RECONNECT_ATTEMPTS then
    let attempts := reconnectAttempts s + 1 in
    let backoffDelay := RECONNECT_DELAY * 2 ^ (attempts - 1) in
    (mkState (isConnected s) attempts (Some backoffDelay),
     [ConsoleLog ("Reconnect attempt " +:+ pretty attempts +:+ " in "
                  +:+ pretty backoffDelay +:+ "ms...");
      SetTimeout backoffDelay])
  else
    (s, [ConsoleError "Max reconnect attempts reached, giving up"]).

Definition handleConnectionError (s : State) : State * list Effect :=
  if isConnected s then
    let '(s', effs) :=
      attemptReconnect (mkState false (reconnectAttempts s) (timer s)) in
    (s', ConsoleError "Event subscription error:"
         :: ConsoleWarn "Lost connection to event subscription, attempting to reconnect..."
         :: effs)
  else (s, [ConsoleError "Event subscription error:"]).

(** The callback given to [setTimeout] in [attemptReconnect]. *)
Definition timerFires (r : Reconnect) (s : State) : State * list Effect :=
  let s0 := mkState (isConnected s) (reconnectAttempts s) None in
  match r with
  | Reattached =>
      (mkState true 0 None,
       [ContractOff; ContractOn;
        ConsoleLog "Successfully reconnected to event subscription"])
  | OffThrows =>
      let '(s', effs) := attemptReconnect s0 in
      (s', ContractOff :: ConsoleError "Failed to reconnect:" :: effs)
  | OnThrows =>
      let '(s', effs) := attemptReconnect s0 in
      (s', ContractOff :: ContractOn :: ConsoleError "Failed to reconnect:" :: effs)
  end.

Inductive Input :=
| ProviderError                 (* the provider emits "error" *)
| TimerExpires (r : Reconnect)  (* the pending reconnect timer fires *)
| PixelPainted (event : PaintedEvent).

Definition step (s : State) (i : Input) : State * list Effect :=
  match i with
  | ProviderError => handleConnectionError s
  | TimerExpires r =>
      match timer s with
      | Some _ => timerFires r s
      | None => (s, [])
      end
  | PixelPainted event => (s, [Callback event])
  end.

(** Run a sequence of inputs, collecting the effects in order. *)
Fixpoint run (s : State) (inputs : list Input) : State * list Effect :=
  match inputs with
  | [] => (s, [])
  | i :: rest =>
      let '(s1, e1) := step s i in
      let '(s2, e2) := run s1 rest in
      (s2, e1 ++ e2)
  end.

Definition isTimer (e : Effect) : bool :=
  match e with SetTimeout _ => true | _ => false end.
Definition reachesOwner (e : Effect) : bool :=
  match e with Callback _ => true | _ => false end.

(** The state after the attempts are exhausted. *)
Definition abandoned : State := mkState false MAX_RECONNECT_ATTEMPTS None.

(** What holds of the closure variables between any two inputs. *)
Definition wellFormed (s : State) : Prop :=
  0 <= reconnectAttempts s <= MAX_RECONNECT_ATTEMPTS ∧
  (isConnected s = true → reconnectAttempts s = 0 ∧ timer s = None) ∧
  (∀ d, timer s = Some d →
        isConnected s = false ∧ 1 <= reconnectAttempts s ∧
        d = RECONNECT_DELAY * 2 ^ (reconnectAttempts s - 1)).

End Subscription.

(* ===================================================================== *)
(** ** The whole of [onPixelPainted]: subscription and unsubscription     *)
(* ===================================================================== *)

Module Listener.
Import Subscription.

(** [listening]: the contract holds the event listener.  [watching]: the
    provider holds [handleConnectionError]. *)
Record State := mkState {
  sub : Subscription.State;
  listening : bool;
  watching : bool
}.

(** The state when [onPixelPainted] returns, both registrations done. *)
Definition subscribed : State := mkState Subscription.initial true true.

Inductive Input :=
| Incoming (i : Subscription.Input)
| Unsubscribe.   (* the function that onPixelPainted returned is called *)

Definition step (s : State) (i : Input) : State * list Effect :=
  match i with
  | Incoming ProviderError =>
      if watching s then
        let '(sub', effs) := handleConnectionError (sub s) in
        (mkState sub' (listening s) (watching s), effs)
      else (s, [])
  | Incoming (TimerExpires r) =>
      match timer (sub s) with
      | Some _ =>
          let '(sub', effs) := timerFires r (sub s) in
          (mkState sub'
             match r with
             | Reattached => true          (* off, then on *)
             | OffThrows => listening s    (* nothing changed *)
             | OnThrows => false           (* off, then on threw *)
             end
             (watching s), effs)
      | None => (s, [])
      end
  | Incoming (PixelPainted event) =>
      if listening s then (s, [Callback event]) else (s, [])
  | Unsubscribe =>
      (* contract.off(eventFilter, listener); provider.off("error", ...) *)
      (mkState (sub s) false false, [ContractOff])
  end.

Fixpoint run (s : State) (inputs : list Input) : State * list Effect :=
  match inputs with
  | [] => (s, [])
  | i :: rest =>
      let '(s1, e1) := step s i in
      let '(s2, e2) := run s1 rest in
      (s2, e1 ++ e2)
  end.

End Listener.

(* ===================================================================== *)
(** ** The mock service ([MockCanvasService] in [src/api/canvasService.ts]) *)
(* ===================================================================== *)

Module MockCanvasService.
Import Web3Utils.

Definition colors : list string := ["#EEEEEE"; "#DDDDDD"; "#CCCCCC"; "#BBBBBB"].

(** [colors[(x + y) % colors.length]]; the index is always in range. *)
Definition colorAt (x y : Z) : string :=
  default "" (colors !! Z.to_nat ((x + y) `mod` Z.of_nat (length colors))).

Definition getCanvasSection (startX startY width height : Z) : CanvasChunk :=
  (λ y, (λ x, Some (Pixel.mk (startX + x) (startY + y) (colorAt x y) None))
          <$> seqZ 0 width) <$> seqZ 0 height.

(** The registered callbacks, each function standing by a number that is
    its identity, and the events whose one-second timers are running, each
    with its [timestamp]. *)
Record State := mkState {
  pixelPainted : list nat;
  feeUpdated : list nat;
  timers : list (Subscription.PaintedEvent * Z)
}.

Definition initial : State := mkState [] [] [].

Definition onPixelPainted (callback : nat) (s : State) : State :=
  mkState (pixelPainted s ++ [callback]) (feeUpdated s) (timers s).

(** The function [onPixelPainted] returns:
    [pixelPainted.filter(cb => cb !== callback)]. *)
Definition offPixelPainted (callback : nat) (s : State) : State :=
  mkState (filter (λ cb, cb ≠ callback) (pixelPainted s)) (feeUpdated s) (timers s).

(** [paintPixel]; [suffix] is the random tail of the hash and [now] is
    [Date.now()]. *)
Definition paintPixel (x y : Z) (color suffix : string) (now : Z) (s : State)
    : TransactionResult * State :=
  (mkResult true (Some ("0xMockTxHash" +:+ suffix)) None,
   mkState (pixelPainted s) (feeUpdated s)
     (timers s ++ [(Subscription.mkPainted x y color
                      "0xMockAddress0000000000000000000000000000", now)])).

(** The oldest timer fires: every callback registered now is called with
    the event.  The result lists the calls in order. *)
Definition timerFires (s : State)
    : list (nat * (Subscription.PaintedEvent * Z)) * State :=
  match timers s with
  | [] => ([], s)
  | event :: rest =>
      ((λ callback, (callback, event)) <$> pixelPainted s,
       mkState (pixelPainted s) (feeUpdated s) rest)
  end.

End MockCanvasService.

(* ===================================================================== *)
(** ** The activity feed ([src/store/uiStore.ts])                         *)
(* ===================================================================== *)

Module UIStore.

Record ActivityItem := mkItem {
  itemX : Z;
  itemY : Z;
  itemColor : string;
  itemPainter : string;
  itemTimestamp : option Z;
  itemId : string
}.

(** [addActivityItem] for an event with its optional [timestamp]; [now] is
    [Date.now()]. *)
Definition addActivityItem (event : Subscription.PaintedEvent)
    (timestamp : option Z) (now : Z)
    (activity : list ActivityItem) : list ActivityItem :=
  take 50
    (mkItem (Subscription.evX event) (Subscription.evY event)
       (Subscription.evColor event) (Subscription.evPainter event) timestamp
       (pretty (Subscription.evX event) +:+ "-" +:+
        pretty (Subscription.evY event) +:+ "-" +:+ pretty now)
     :: activity).

Definition clearActivity (activity : list ActivityItem) : list ActivityItem := [].

Inductive Action :=
| Add (event : Subscription.PaintedEvent) (timestamp : option Z) (now : Z)
| Clear.

Definition act (activity : list ActivityItem) (a : Action) : list ActivityItem :=
  match a with
  | Add event timestamp now => addActivityItem event timestamp now activity
  | Clear => clearActivity activity
  end.

End UIStore.

(* ===================================================================== *)
(** ** Service initialisation
       ([src/components/providers/CanvasServiceProvider.tsx])             *)
(* ===================================================================== *)

Module ServiceProvider.

Definition maxRetries : Z := 3.

Inductive Service :=
| Ethers   (* EthersCanvasService *)
| Mock.    (* MockCanvasService *)

(** The component state, with the dimensions it wrote to the store. *)
Record State := mkState {
  canvasService : option Service;
  loading : bool;
  error : option string;
  isUsingFallback : bool;
  retryCount : Z;
  dimensions : CanvasService.Dimensions
}.

Definition initial : State :=
  mkState None true None false 0
    (CanvasService.mkDimensions DEFAULT_CANVAS_WIDTH DEFAULT_CANVAS_HEIGHT).

(** What one run of [initializeCanvasService] meets: whether
    [new EthersCanvasService] throws (a configuration error in
    [getContract]), how the two dimension calls of the contract settle
    ([None]: the call failed or timed out), and whether [onPixelPainted]
    throws while it builds the event filter. *)
Record Attempt := mkAttempt {
  constructorThrows : bool;
  widthCall : option Z;
  heightCall : option Z;
  subscribeThrows : bool
}.

Definition useMock (message : string) (d : CanvasService.Dimensions)
    (s : State) : State :=
  mkState (Some Mock) false (Some message) true (retryCount s) d.

Definition mockDimensions : CanvasService.Dimensions :=
  CanvasService.mkDimensions CanvasService.DEFAULT_WIDTH CanvasService.DEFAULT_HEIGHT.

Definition initializeCanvasService (a : Attempt) (s : State) : State :=
  if maxRetries <=? retryCount s then
    useMock "Using mock data after multiple failed connection attempts. The app will work in offline mode."
      (dimensions s) s
  else if constructorThrows a then
    (* the outer catch *)
    useMock "Using mock data: Unable to connect to blockchain. Working in offline mode."
      mockDimensions s
  else
    let d := CanvasService.getDimensions (widthCall a) (heightCall a) in
    if subscribeThrows a then
      (* the inner catch, after setDimensions *)
      if retryCount s <? maxRetries then
        let nextRetry := retryCount s + 1 in
        mkState (canvasService s) (loading s)
          (Some ("Connection attempt " +:+ pretty nextRetry +:+ "/"
                 +:+ pretty (maxRetries + 1) +:+ " failed. Retrying in "
                 +:+ pretty (2000 * 2 ^ (nextRetry - 1) / 1000) +:+ " seconds..."))
          (isUsingFallback s) nextRetry d
      else
        useMock "Using simulated data: Contract interaction failed. The app will work with mock data for testing."
          mockDimensions s
    else
      mkState (Some Ethers) false (error s) false 0 d.

(** The effect runs [initializeCanvasService] when the component mounts
    and again each time [retryCount] changes. *)
Fixpoint mount (attempts : list Attempt) (s : State) : State :=
  match attempts with
  | [] => s
  | a :: rest =>
      let s' := initializeCanvasService a s in
      if retryCount s' =? retryCount s then s' else mount rest s'
  end.

(** An attempt in which both dimension calls fail and nothing throws. *)
Definition dimensionCallsFail : Attempt := mkAttempt false None None false.

(** An attempt whose contract test throws. *)
Definition contractTestThrows : Attempt :=
  mkAttempt false (Some 100) (Some 100) true.

End ServiceProvider.
(* ===================================================================== *)
(** * Properties of the store                                             *)
(* ===================================================================== *)

Section RangeBy.

Lemma range_by_spec fuel start stop step v :
  0 < step → stop - start <= Z.of_nat fuel →
  v ∈ range_by fuel start stop step ↔
  start <= v < stop ∧ (step | v - start).
Proof.
  intros Hstep. revert start.
  induction fuel as [|fuel IH]; intros start Hfuel; simpl.
  - split; [by intros ?%elem_of_nil | lia].
  - destruct (Z.ltb_spec start stop) as [Hlt|Hge].
    + rewrite elem_of_cons, IH by lia. split.
      * intros [->|[Hr [k Hk]]].
        { split; [lia|]. exists 0. lia. }
        { split; [lia|]. exists (k + 1). lia. }
      * intros [Hr [k Hk]].
        destruct (decide (v = start)) as [->|Hne]; [by left|right].
        assert (0 < k) by nia.
        split; [nia|]. exists (k - 1). lia.
    + split; [by intros ?%elem_of_nil | lia].
Qed.

(** Rounding a start down and an end up to multiples of a positive step. *)
Lemma floor_div_bounds a b :
  0 < b → floor_div a b * b <= a < floor_div a b * b + b.
Proof.
  intros Hb. unfold floor_div.
  pose proof (Z.div_mod a b ltac:(lia)). pose proof (Z.mod_pos_bound a b Hb). lia.
Qed.

Lemma ceil_div_bounds a b :
  0 < b → ceil_div a b * b - b < a <= ceil_div a b * b.
Proof.
  intros Hb. unfold ceil_div.
  pose proof (Z.div_mod (- a) b ltac:(lia)).
  pose proof (Z.mod_pos_bound (- a) b Hb). lia.
Qed.

(** Between the aligned bounds, the loop visits exactly the multiples of
    the step. *)
Lemma aligned_range_spec lo hi step v :
  0 < step →
  v ∈ range_by (Z.to_nat (ceil_div hi step * step - floor_div lo step * step))
        (floor_div lo step * step) (ceil_div hi step * step) step ↔
  floor_div lo step * step <= v < ceil_div hi step * step ∧ (step | v).
Proof.
  intros Hstep. rewrite range_by_spec by lia.
  split; intros [Hr [k Hk]]; (split; [done|]).
  - exists (k + floor_div lo step). lia.
  - exists (k - floor_div lo step). lia.
Qed.

End RangeBy.

Section VisibleChunks.
Import CanvasStore.

Lemma elem_of_getVisibleChunks w s c :
  0 < chunkSize s →
  c ∈ getVisibleChunks w s ↔
  (floor_div (visibleStartX s) (chunkSize s) * chunkSize s <= startX c
     < ceil_div (visibleEndX w s) (chunkSize s) * chunkSize s
   ∧ (chunkSize s | startX c)) ∧
  (floor_div (visibleStartY s) (chunkSize s) * chunkSize s <= startY c
     < ceil_div (visibleEndY w s) (chunkSize s) * chunkSize s
   ∧ (chunkSize s | startY c)).
Proof.
  intros Hcs. unfold getVisibleChunks. cbv zeta.
  rewrite list_elem_of_bind. split.
  - intros (y & Hy & Hin). apply list_elem_of_bind in Hy as (x & Hx & Hxin).
    apply list_elem_of_singleton in Hx as ->. simpl.
    apply aligned_range_spec in Hin, Hxin; done.
  - intros [Hx Hy]. exists (startY c). split.
    + apply list_elem_of_bind. exists (startX c). split.
      * destruct c; simpl. by apply list_elem_of_singleton.
      * by apply aligned_range_spec.
    + by apply aligned_range_spec.
Qed.

(** Every visible cell lies in a returned chunk. *)
Lemma getVisibleChunks_complete w s cx cy :
  0 < chunkSize s → visible w s cx cy →
  ∃ c, c ∈ getVisibleChunks w s ∧ inChunk s c cx cy.
Proof.
  intros Hcs [Hx Hy].
  set (C := chunkSize s) in *.
  exists (mkOrigin (floor_div cx C * C) (floor_div cy C * C)).
  pose proof (floor_div_bounds cx C Hcs).
  pose proof (floor_div_bounds cy C Hcs).
  pose proof (ceil_div_bounds (visibleEndX w s) C Hcs).
  pose proof (ceil_div_bounds (visibleEndY w s) C Hcs).
  assert (floor_div (visibleStartX s) C <= floor_div cx C)
    by (apply Z.div_le_mono; lia).
  assert (floor_div (visibleStartY s) C <= floor_div cy C)
    by (apply Z.div_le_mono; lia).
  assert (visibleEndX w s <= canvasWidth s) by apply Z.le_min_l.
  assert (visibleEndY w s <= canvasHeight s) by apply Z.le_min_l.
  split.
  - apply elem_of_getVisibleChunks; [done|]. fold C. simpl.
    repeat split; try nia; by apply Z.divide_factor_r.
  - unfold inChunk. fold C. simpl. lia.
Qed.

(** When some cell is visible, every returned chunk holds a visible cell. *)
Lemma getVisibleChunks_minimal w s c :
  0 < chunkSize s → (∃ cx cy, visible w s cx cy) →
  c ∈ getVisibleChunks w s →
  ∃ cx cy, visible w s cx cy ∧ inChunk s c cx cy.
Proof.
  intros Hcs (vx & vy & [Hvx Hvy]) Hin.
  apply elem_of_getVisibleChunks in Hin as [(Hx & kx & Hkx) (Hy & ky & Hky)];
    [|done].
  set (C := chunkSize s) in *.
  pose proof (floor_div_bounds (visibleStartX s) C Hcs).
  pose proof (floor_div_bounds (visibleStartY s) C Hcs).
  pose proof (ceil_div_bounds (visibleEndX w s) C Hcs).
  pose proof (ceil_div_bounds (visibleEndY w s) C Hcs).
  assert (visibleEndX w s <= canvasWidth s) by apply Z.le_min_l.
  assert (visibleEndY w s <= canvasHeight s) by apply Z.le_min_l.
  assert (startX c + C <= ceil_div (visibleEndX w s) C * C).
  { assert (kx + 1 <= ceil_div (visibleEndX w s) C) by nia. nia. }
  assert (startY c + C <= ceil_div (visibleEndY w s) C * C).
  { assert (ky + 1 <= ceil_div (visibleEndY w s) C) by nia. nia. }
  exists (Z.max (startX c) (visibleStartX s)),
         (Z.max (startY c) (visibleStartY s)).
  unfold visible, inChunk. fold C. lia.
Qed.

(** The scenario of the specification, for any store and window whose
    visible rectangle starts at cell 5 and ends at cell 25 (the end taken
    exclusive or inclusive). *)
Lemma getVisibleChunks_scenario w s :
  chunkSize s = 20 →
  visibleStartX s = 5 → visibleStartY s = 5 →
  25 <= visibleEndX w s <= 26 → 25 <= visibleEndY w s <= 26 →
  getVisibleChunks w s =
    [mkOrigin 0 0; mkOrigin 20 0; mkOrigin 0 20; mkOrigin 20 20].
Proof.
  intros Hcs Hsx Hsy Hex Hey. unfold getVisibleChunks.
  rewrite Hcs, Hsx, Hsy.
  assert (ceil_div (visibleEndX w s) 20 = 2) as ->.
  { unfold ceil_div.
    assert ((- visibleEndX w s) / 20 = -2); [|lia].
    symmetry. apply Z.div_unique with (r := 40 - visibleEndX w s); lia. }
  assert (ceil_div (visibleEndY w s) 20 = 2) as ->.
  { unfold ceil_div.
    assert ((- visibleEndY w s) / 20 = -2); [|lia].
    symmetry. apply Z.div_unique with (r := 40 - visibleEndY w s); lia. }
  reflexivity.
Qed.

(** C1 (as amended).  For every viewport and grid size, with a positive
    chunk size: every cell of the clamped visible rectangle lies inside a
    returned chunk; when the visible rectangle is not empty, every returned
    chunk contains a visible cell (none is wholly outside it); and a
    viewport whose visible cells are (5,5)-(25,25) on a grid with chunk
    size 20 yields exactly the origins (0,0), (20,0), (0,20), (20,20). *)
Theorem getVisibleChunks_cover w s :
  0 < chunkSize s →
  (∀ cx cy, visible w s cx cy →
     ∃ c, c ∈ getVisibleChunks w s ∧ inChunk s c cx cy) ∧
  ((∃ cx cy, visible w s cx cy) →
     ∀ c, c ∈ getVisibleChunks w s →
       ∃ cx cy, visible w s cx cy ∧ inChunk s c cx cy) ∧
  (chunkSize s = 20 →
   visibleStartX s = 5 → visibleStartY s = 5 →
   25 <= visibleEndX w s <= 26 → 25 <= visibleEndY w s <= 26 →
   getVisibleChunks w s =
     [mkOrigin 0 0; mkOrigin 20 0; mkOrigin 0 20; mkOrigin 20 20]).
Proof.
  intros Hcs. split; [|split].
  - intros cx cy. by apply getVisibleChunks_complete.
  - intros Hne c. by apply getVisibleChunks_minimal.
  - apply getVisibleChunks_scenario.
Qed.

Lemma getVisibleChunks_cover_witness :
  0 < chunkSize scenario_store ∧
  visible scenario_window scenario_store 5 5 ∧
  getVisibleChunks scenario_window scenario_store =
    [mkOrigin 0 0; mkOrigin 20 0; mkOrigin 0 20; mkOrigin 20 20].
Proof.
  split; [reflexivity|]. split; [vm_compute; intuition discriminate|].
  apply (getVisibleChunks_cover scenario_window scenario_store);
    vm_compute; first [reflexivity | intuition discriminate].
Defined.

(** C1 fails as stated: on a 90x90 grid panned off the window no cell is
    visible, yet the chunk at (80,0) is returned. *)
Lemma getVisibleChunks_not_minimal :
  getVisibleChunks offscreen_window offscreen_store =
    [mkOrigin 80 0; mkOrigin 80 20; mkOrigin 80 40] ∧
  ¬ (∀ c, c ∈ getVisibleChunks offscreen_window offscreen_store →
       ∃ cx cy, visible offscreen_window offscreen_store cx cy ∧
                inChunk offscreen_store c cx cy).
Proof.
  split; [reflexivity|].
  intros H. destruct (H (mkOrigin 80 0)) as (cx & cy & [Hx _] & _).
  - change (mkOrigin 80 0 ∈ [mkOrigin 80 0; mkOrigin 80 20; mkOrigin 80 40]).
    apply elem_of_cons. by left.
  - change (90 <= cx < 90) in Hx. lia.
Qed.

End VisibleChunks.

Section StoreAlgebra.
Import CanvasStore.

(** C9.  Merging the same chunk twice leaves the store as one merge does. *)
Theorem setChunk_idempotent startX startY chunk s :
  setChunk startX startY chunk (setChunk startX startY chunk s) =
  setChunk startX startY chunk s.
Proof.
  unfold setChunk. simpl. by rewrite !insert_insert_eq.
Qed.

Lemma index_Some {A} (l : list A) i a :
  index l i = Some a ↔ 0 <= i ∧ l !! Z.to_nat i = Some a.
Proof.
  unfold index. destruct (Z.ltb_spec i 0) as [Hneg|Hpos].
  - split; [done|]. intros [? _]. lia.
  - split; [by intros ?|by intros [_ ?]].
Qed.

Lemma index_insert_ne {A} (l : list A) (n : nat) i a :
  i ≠ Z.of_nat n → index (<[n := a]> l) i = index l i.
Proof.
  intros Hne. unfold index. destruct (Z.ltb_spec i 0); [done|].
  apply list_lookup_insert_ne. lia.
Qed.

Lemma index_insert_eq {A} (l : list A) i a b :
  index l i = Some b → index (<[Z.to_nat i := a]> l) i = Some a.
Proof.
  intros [Hi Hl]%index_Some. unfold index.
  destruct (Z.ltb_spec i 0); [lia|].
  apply list_lookup_insert_eq. by eapply lookup_lt_Some.
Qed.

(** What [paintInChunk] does to a chunk, slot by slot. *)
Lemma paintInChunk_shape rx ry color now chunk :
  length <$> paintInChunk rx ry color now chunk = length <$> chunk.
Proof.
  unfold paintInChunk.
  destruct (index chunk ry) as [row|] eqn:Hrow; [|done].
  destruct (index row rx) as [[p|]|] eqn:Hcell; try done.
  apply index_Some in Hrow as [_ Hrow].
  rewrite list_fmap_insert, length_insert.
  apply list_insert_id. by rewrite list_lookup_fmap, Hrow.
Qed.

Lemma paintInChunk_other rx ry color now chunk i j :
  i ≠ ry ∨ j ≠ rx →
  cellAt (paintInChunk rx ry color now chunk) i j = cellAt chunk i j.
Proof.
  intros Hne. unfold paintInChunk.
  destruct (index chunk ry) as [row|] eqn:Hrow; [|done].
  destruct (index row rx) as [[p|]|] eqn:Hcell; try done.
  pose proof Hrow as [Hry Hrow']%index_Some.
  pose proof Hcell as [Hrx _]%index_Some.
  unfold cellAt. destruct (decide (i = ry)) as [->|Hi].
  - erewrite index_insert_eq by done. rewrite Hrow. simpl.
    apply index_insert_ne. lia.
  - by rewrite index_insert_ne by lia.
Qed.

Lemma paintInChunk_target rx ry color now chunk :
  cellAt (paintInChunk rx ry color now chunk) ry rx =
  match cellAt chunk ry rx with
  | Some (Some p) =>
      Some (Some (Pixel.mk (Pixel.x p) (Pixel.y p) color (Some now)))
  | other => other
  end.
Proof.
  unfold paintInChunk, cellAt.
  destruct (index chunk ry) as [row|] eqn:Hrow; simpl; [|by rewrite Hrow].
  destruct (index row rx) as [[p|]|] eqn:Hcell;
    try (by rewrite Hrow; simpl; rewrite Hcell).
  erewrite index_insert_eq by done. simpl.
  by erewrite index_insert_eq by done.
Qed.

(** C10.  [updatePixel] on a pixel whose chunk is not loaded leaves the
    store as it is; otherwise the dimensions, chunk size, loading flags and
    viewport are unchanged, every other chunk is unchanged, and inside the
    chunk the rows keep their lengths, every slot other than the one at
    (x, y) is unchanged, and the pixel in that slot keeps its coordinates
    and takes the new color and the current time as [lastPainted]. *)
Theorem updatePixel_frame x y color now s :
  let chunkStartX := floor_div x (chunkSize s) * chunkSize s in
  let chunkStartY := floor_div y (chunkSize s) * chunkSize s in
  let chunkKey := getChunkKey chunkStartX chunkStartY in
  let s' := updatePixel x y color now s in
  match chunks s !! chunkKey with
  | None => s' = s
  | Some chunk =>
      canvasWidth s' = canvasWidth s ∧ canvasHeight s' = canvasHeight s ∧
      chunkSize s' = chunkSize s ∧
      loadingChunks s' = loadingChunks s ∧ viewport s' = viewport s ∧
      (∀ k, k ≠ chunkKey → chunks s' !! k = chunks s !! k) ∧
      ∃ newChunk,
        chunks s' !! chunkKey = Some newChunk ∧
        length <$> newChunk = length <$> chunk ∧
        (∀ i j, i ≠ y - chunkStartY ∨ j ≠ x - chunkStartX →
                cellAt newChunk i j = cellAt chunk i j) ∧
        cellAt newChunk (y - chunkStartY) (x - chunkStartX) =
          match cellAt chunk (y - chunkStartY) (x - chunkStartX) with
          | Some (Some p) =>
              Some (Some (Pixel.mk (Pixel.x p) (Pixel.y p) color (Some now)))
          | other => other
          end
  end.
Proof.
  cbv zeta. unfold updatePixel.
  destruct (chunks s !! _) as [chunk|] eqn:Hk; [|done]. simpl.
  repeat split; try done.
  - intros k Hne. by rewrite lookup_insert_ne.
  - eexists. split; [by rewrite lookup_insert_eq|].
    split; [apply paintInChunk_shape|].
    split; [intros i j; apply paintInChunk_other|apply paintInChunk_target].
Qed.

End StoreAlgebra.

(* ===================================================================== *)
(** * The loading marks of the chunk loader                               *)
(* ===================================================================== *)

Section LoadingMarks.
Import CanvasStore Loader.

(** A merge installs the chunk and clears its mark in the same update. *)
Lemma setChunk_atomic sx sy chunk s :
  chunks (setChunk sx sy chunk s) !! getChunkKey sx sy = Some chunk ∧
  loadingChunks (setChunk sx sy chunk s) !! getChunkKey sx sy = Some false.
Proof. unfold setChunk; simpl. by rewrite !lookup_insert_eq. Qed.

Lemma setChunk_exclusive sx sy chunk s :
  exclusive s → exclusive (setChunk sx sy chunk s).
Proof.
  intros Hs k [Hp Hl]. simpl in *.
  destruct (decide (getChunkKey sx sy = k)) as [<-|Hne].
  - by rewrite lookup_insert_eq in Hl.
  - rewrite lookup_insert_ne in Hp by done.
    rewrite lookup_insert_ne in Hl by done. by apply (Hs k).
Qed.

Lemma setChunkLoading_false_exclusive sx sy s :
  exclusive s → exclusive (setChunkLoading sx sy false s).
Proof.
  intros Hs k [Hp Hl]. simpl in *.
  destruct (decide (getChunkKey sx sy = k)) as [<-|Hne].
  - by rewrite lookup_insert_eq in Hl.
  - rewrite lookup_insert_ne in Hl by done. by apply (Hs k).
Qed.

(** Marking a chunk loading is safe when the store itself lacks it. *)
Lemma setChunkLoading_true_exclusive sx sy s :
  chunks s !! getChunkKey sx sy = None →
  exclusive s → exclusive (setChunkLoading sx sy true s).
Proof.
  intros Hnone Hs k [Hp Hl]. simpl in *.
  destruct (decide (getChunkKey sx sy = k)) as [<-|Hne].
  - rewrite Hnone in Hp. by destruct Hp.
  - rewrite lookup_insert_ne in Hl by done. by apply (Hs k).
Qed.

Lemma updatePixel_exclusive x y color now s :
  exclusive s → exclusive (updatePixel x y color now s).
Proof.
  intros Hs k [Hp Hl]. unfold updatePixel in *.
  destruct (chunks s !! getChunkKey _ _) as [chunk|] eqn:Hk;
    [|by apply (Hs k)].
  simpl in *. apply (Hs k). split; [|done].
  destruct (decide (getChunkKey (floor_div x (chunkSize s) * chunkSize s)
                      (floor_div y (chunkSize s) * chunkSize s) = k)) as [<-|Hne].
  - by rewrite Hk.
  - by rewrite lookup_insert_ne in Hp.
Qed.

Lemma present_is_Some s k : present s k = true → is_Some (chunks s !! k).
Proof. unfold present. apply bool_decide_eq_true. Qed.

Lemma loading_is_true s k : loading s k = true → loadingChunks s !! k = Some true.
Proof. unfold loading. apply bool_decide_eq_true. Qed.

Lemma stale_trace_before :
  present (store (run scenario_window (mkSystem scenario_store [])
                    (take 6 stale_trace))) "0,20" = true ∧
  loading (store (run scenario_window (mkSystem scenario_store [])
                    (take 6 stale_trace))) "0,20" = false.
Proof. split; vm_compute; reflexivity. Qed.

Lemma stale_trace_after :
  present (store (run scenario_window (mkSystem scenario_store [])
                    stale_trace)) "0,20" = true ∧
  loading (store (run scenario_window (mkSystem scenario_store [])
                    stale_trace)) "0,20" = true.
Proof. split; vm_compute; reflexivity. Qed.

(** C7.  The first invocation still holds the empty [chunks] and
    [loadingChunks] of its render when it reaches the chunk at (0,20), which
    the third invocation has merged meanwhile: it marks it loading, and the
    store holds a key that is both present and loading.  Up to the last
    step the store is exclusive. *)
Theorem stale_snapshot_marks_present_chunk :
  let before := run scenario_window (mkSystem scenario_store []) (take 6 stale_trace) in
  let after := run scenario_window (mkSystem scenario_store []) stale_trace in
  (present (store before) "0,20" = true ∧ loading (store before) "0,20" = false) ∧
  (present (store after) "0,20" = true ∧ loading (store after) "0,20" = true) ∧
  ¬ exclusive (store after).
Proof.
  cbv zeta. split; [exact stale_trace_before|]. split; [exact stale_trace_after|].
  intros Hex. destruct stale_trace_after as [Hp Hl].
  apply (Hex "0,20"). split.
  - by apply present_is_Some.
  - by apply loading_is_true.
Qed.

End LoadingMarks.

(* ===================================================================== *)
(** * The throttled provider                                              *)
(* ===================================================================== *)

Section ThrottledProvider.
Import Web3Utils.

(** The selectors of the table are ten characters long, so the first ten
    characters of call data that begins with one are the selector. *)
Lemma substring_selector signature config rest :
  (signature, config) ∈ knownIssues →
  String.substring 0 10 (signature +:+ rest) = signature ∧
  String.eqb (signature +:+ rest) "" = false ∧
  findIssue signature knownIssues = Some config.
Proof.
  unfold knownIssues. rewrite !elem_of_cons, elem_of_nil.
  intros [H|[H|[H|[H|[H|[]]]]]]; injection H as -> ->;
    (split; [by destruct rest|split; reflexivity]).
Qed.

(** C4.  An [eth_call] whose call data begins with a selector of the
    [knownIssues] table is resolved by [send] with the mock response of that
    selector, and the provider is left as it was: nothing is queued and
    nothing is handed to the transport. *)
Theorem send_known_issue signature config rest target others p :
  (signature, config) ∈ knownIssues →
  send (mkRequest "eth_call" (mkCall target (Some (signature +:+ rest)) :: others)) p
  = (Resolved (mockResponse config), p).
Proof.
  intros Hin. destruct (substring_selector _ _ rest Hin) as (Hsub & Hne & Hfind).
  unfold send, knownIssue. cbn [method params data].
  change (String.eqb "eth_call" "eth_call") with true. cbv iota.
  by rewrite Hne, Hsub, Hfind.
Qed.

Lemma send_known_issue_witness :
  send (mkRequest "eth_call"
          [mkCall (Some "0xabc") (Some "0xc58f4da7000000000000000000000005")])
       initial
  = (Resolved (JArr [JArr []]), initial).
Proof.
  apply (send_known_issue "0xc58f4da7"
           (mkIssue (JArr [JArr []])
              "Mocking response for getCanvasSection contract call")
           "000000000000000000000005" (Some "0xabc") [] initial).
  unfold knownIssues. rewrite !elem_of_cons. do 4 right. by left.
Defined.

(** [send] and the queued closure write [maxBatchSize] only as [1]. *)
Lemma step_maxBatchSize p i :
  maxBatchSize p = 1 → maxBatchSize (step p i) = 1.
Proof.
  intros Hp. destruct i as [r|first retry]; simpl.
  - unfold send. destruct (knownIssue r); [done|].
    by destruct (isEnsCall r).
  - destruct (requestQueue p) as [|r rest]; [done|].
    unfold runRequest.
    destruct first; simpl; try done;
      repeat (match goal with |- context [if ?b then _ else _] => destruct b end);
      destruct retry; done.
Qed.

Lemma foldl_step_maxBatchSize inputs p :
  maxBatchSize p = 1 → maxBatchSize (foldl step p inputs) = 1.
Proof.
  revert p. induction inputs as [|i inputs IH]; intros p Hp; simpl; [done|].
  apply IH. by apply step_maxBatchSize.
Qed.

(** C5.  When the transport fails a dispatched request with a batch-size
    error, the closure sets [maxBatchSize] to 1, adds 50 ms to the delay
    between requests, waits 500 ms and hands the request to the transport
    once more, and once only; the promise takes the fate of that retry, so
    a second failure is rejected to the caller.  Nothing in the session
    that follows raises [maxBatchSize] again. *)
Theorem batch_size_error_retry r message retry p :
  includes "Batch size is too large" message = true →
  let '(settlement, p') := runRequest r (Fault message) retry p in
  settlement = match retry with
               | Reply v => Resolve v
               | Fault retryError => Reject retryError
               | Silent => Unsettled
               end ∧
  maxBatchSize p' = 1 ∧
  requestDelay p' = requestDelay p + 50 ∧
  trace p' = trace p ++ [Wait (requestDelay p); Transmit r; Wait 500; Transmit r] ∧
  ∀ inputs, maxBatchSize (foldl step p' inputs) = 1.
Proof.
  intros Hmsg. unfold runRequest. rewrite Hmsg.
  destruct retry; simpl; rewrite <- app_assoc; simpl;
    (repeat split; try done; intros inputs; by apply foldl_step_maxBatchSize).
Qed.

Lemma batch_size_error_retry_witness :
  let r := mkRequest "eth_getBalance" [] in
  let '(settlement, p') :=
    runRequest r (Fault "Batch size is too large") (Fault "rate limited") initial in
  settlement = Reject "rate limited" ∧
  maxBatchSize p' = 1 ∧
  requestDelay p' = 100 ∧
  trace p' = [Wait 50; Transmit r; Wait 500; Transmit r] ∧
  ∀ inputs, maxBatchSize (foldl step p' inputs) = 1.
Proof.
  exact (batch_size_error_retry (mkRequest "eth_getBalance" [])
           "Batch size is too large" (Fault "rate limited") initial eq_refl).
Defined.

(** From a fresh provider [maxBatchSize] is 1 at every point of a session. *)
Lemma session_maxBatchSize inputs : maxBatchSize (session inputs) = 1.
Proof. by apply foldl_step_maxBatchSize. Qed.

(** C6.  When the transaction is sent and the wait for its confirmation
    times out, [paintPixel] hands exactly one transaction to the contract
    and returns [success: true] with the transaction hash and the advisory
    message; every outcome in which the transaction was not sent has
    [success: false], and the confirmed outcome has no message.  The
    service method passes the result on unchanged. *)
Theorem paintPixel_confirmation_timeout x y color fee hash feeCall :
  Web3Utils.paintPixel true (Sent hash) TimedOut x y color fee =
    (mkResult true (Some hash)
       (Some "Transaction sent but confirmation timed out. Check the transaction in block explorer."),
     [mkSubmitted x y (hexToBytes3 color) fee]) ∧
  CanvasService.paintPixel true feeCall (Sent hash) TimedOut x y color =
    (mkResult true (Some hash)
       (Some "Transaction sent but confirmation timed out. Check the transaction in block explorer."),
     [mkSubmitted x y (hexToBytes3 color)
        (CanvasService.safeContractCall feeCall 1000000000000000)]) ∧
  (∀ hasRunner code message wait,
     success (Web3Utils.paintPixel hasRunner (Refused code message) wait x y color fee).1
       = false ∧
     success (Web3Utils.paintPixel false (Sent hash) wait x y color fee).1 = false) ∧
  (∀ blockNumber,
     error (Web3Utils.paintPixel true (Sent hash) (Mined blockNumber) x y color fee).1
       = None).
Proof.
  split; [done|]. split; [done|]. split; [|done].
  intros hasRunner code message wait. split; [|done].
  unfold Web3Utils.paintPixel. destruct hasRunner; simpl; [|done].
  destruct (String.eqb code "INSUFFICIENT_FUNDS"); [done|].
  by destruct (String.eqb code "ACTION_REJECTED").
Qed.

End ThrottledProvider.

(* ===================================================================== *)
(** * The contract service                                                *)
(* ===================================================================== *)

Section CanvasSection.
Import CanvasStore Web3Utils CanvasService.

Lemma foldl_invariant {A B} (P : A → Prop) (f : A → B → A) (l : list B) a :
  P a → (∀ a' b, b ∈ l → P a' → P (f a' b)) → P (foldl f a l).
Proof.
  revert a. induction l as [|b l IH]; intros a Ha Hf; simpl; [done|].
  apply IH.
  - apply Hf; [by left|done].
  - intros a' b' Hin. apply Hf. by right.
Qed.

Lemma setCell_shape r c v (result : CanvasChunk) :
  length <$> setCell r c v result = length <$> result.
Proof.
  unfold setCell. destruct (index result r) as [row|] eqn:Hrow; [|done].
  apply index_Some in Hrow as [_ Hrow].
  rewrite list_fmap_insert, length_insert.
  apply list_insert_id. by rewrite list_lookup_fmap, Hrow.
Qed.

Lemma setCell_other r c v (result : CanvasChunk) i j :
  i ≠ r ∨ j ≠ c → 0 <= c →
  cellAt (setCell r c v result) i j = cellAt result i j.
Proof.
  intros Hne Hc. unfold setCell.
  destruct (index result r) as [row|] eqn:Hrow; [|done].
  pose proof Hrow as [Hr _]%index_Some.
  unfold cellAt. destruct (decide (i = r)) as [->|Hi].
  - erewrite index_insert_eq by done. rewrite Hrow. simpl.
    apply index_insert_ne. lia.
  - by rewrite index_insert_ne by lia.
Qed.

Lemma setCell_target r c v (result : CanvasChunk) old :
  cellAt result r c = Some old → cellAt (setCell r c v result) r c = Some v.
Proof.
  unfold cellAt, setCell.
  destruct (index result r) as [row|] eqn:Hrow; [|done]. simpl. intros Hold.
  erewrite index_insert_eq by done. simpl.
  by erewrite index_insert_eq by done.
Qed.

Context (contract : SectionCall) (startX startY width height : Z).

Local Abbreviation cellOk := (CanvasService.cellOk contract startX startY width height).
Local Abbreviation sectionOk := (CanvasService.sectionOk contract startX startY width height).

Lemma placeholder_ok : sectionOk (placeholder startX startY width height).
Proof.
  unfold placeholder. split.
  - rewrite <- list_fmap_compose.
    apply list_eq. intros i. rewrite list_lookup_fmap.
    destruct (decide (i < Z.to_nat height)%nat) as [Hi|Hi].
    + rewrite lookup_replicate_2 by done.
      rewrite (lookup_seqZ_lt 0 height i) by lia. simpl.
      by rewrite length_fmap, length_seqZ.
    + rewrite lookup_seqZ_ge by lia. simpl. symmetry.
      apply lookup_replicate_None. lia.
  - intros x y Hx Hy. eexists. split.
    + unfold cellAt, index.
      destruct (Z.ltb_spec y 0); [lia|]. rewrite list_lookup_fmap.
      rewrite (lookup_seqZ_lt 0 height) by lia. simpl.
      destruct (Z.ltb_spec x 0); [lia|]. rewrite list_lookup_fmap.
      rewrite (lookup_seqZ_lt 0 width) by lia. simpl. reflexivity.
    + eexists. split; [done|]. simpl. split; [lia|]. split; [lia|done].
Qed.

Lemma setCell_ok r c v result :
  0 <= c < width → 0 <= r < height →
  cellOk c r v → sectionOk result → sectionOk (setCell r c v result).
Proof.
  intros Hc Hr Hv [Hshape Hcells]. split.
  - by rewrite setCell_shape.
  - intros x y Hx Hy.
    destruct (decide (y = r ∧ x = c)) as [[-> ->]|Hne].
    + destruct (Hcells c r Hc Hr) as (old & Hold & _).
      exists v. split; [by eapply setCell_target|done].
    + rewrite setCell_other by lia. by apply Hcells.
Qed.

Lemma mergeRow_ok chunkX chunkY chunkWidth y row result :
  0 <= chunkX → chunkX + chunkWidth <= width → 0 <= chunkY + y < height →
  (∀ x, 0 <= x < chunkWidth →
        cellOk (chunkX + x) (chunkY + y) (default None (index row x))) →
  sectionOk result → sectionOk (mergeRow chunkX chunkY chunkWidth y row result).
Proof.
  intros HX HW HY Hrow Hres. unfold mergeRow.
  apply foldl_invariant; [done|].
  intros res x Hx%elem_of_seqZ Hok.
  apply setCell_ok; [lia|lia| |done]. apply Hrow. lia.
Qed.

Lemma mergeRows_ok chunkX chunkY chunkWidth chunkData ys result :
  0 <= chunkX → chunkX + chunkWidth <= width →
  (∀ y, y ∈ ys →
        0 <= chunkY + y < height ∧
        ∀ row x, index chunkData y = Some row → 0 <= x < chunkWidth →
          cellOk (chunkX + x) (chunkY + y) (default None (index row x))) →
  sectionOk result →
  sectionOk (mergeRows chunkX chunkY chunkWidth chunkData ys result).
Proof.
  intros HX HW. revert result.
  induction ys as [|y ys IH]; intros result Hys Hres; simpl; [done|].
  destruct (index chunkData y) as [row|] eqn:Hrow; [|done].
  destruct (Hys y ltac:(by left)) as [Hy Hcells].
  apply IH.
  - intros y' Hin. apply Hys. by right.
  - apply mergeRow_ok; try done. intros x Hx. by apply Hcells.
Qed.

Lemma aligned_offset c x :
  (MAX_CHUNK_SIZE | c) → 0 <= x < MAX_CHUNK_SIZE →
  (c + x) / MAX_CHUNK_SIZE * MAX_CHUNK_SIZE = c.
Proof.
  unfold MAX_CHUNK_SIZE. intros [k ->] Hx.
  rewrite Z.div_add_l by lia. rewrite (Z.div_small x 10) by lia. lia.
Qed.

Lemma fetchSubChunk_ok chunkX chunkY result :
  fullRows contract →
  0 <= chunkX < width → (MAX_CHUNK_SIZE | chunkX) →
  0 <= chunkY < height → (MAX_CHUNK_SIZE | chunkY) →
  sectionOk result →
  sectionOk (fetchSubChunk contract startX startY width height chunkX chunkY result).
Proof.
  intros Hfull HX HdX HY HdY Hres. unfold fetchSubChunk.
  destruct (contract _ _ _ _) as [rawData|] eqn:Hcall; [|done].
  apply mergeRows_ok; [lia|lia| |done].
  intros y Hy%elem_of_seqZ. split; [lia|].
  intros row x Hrow Hx.
  apply index_Some in Hrow as [Hy0 Hrow].
  unfold processCanvasSectionData in Hrow.
  rewrite list_lookup_imap in Hrow.
  destruct (rawData !! Z.to_nat y) as [rawRow|] eqn:Hraw; [|done].
  injection Hrow as <-.
  pose proof (Hfull _ _ _ _ _ y rawRow Hcall ltac:(lia) Hraw) as Hlen.
  assert (is_Some (rawRow !! Z.to_nat x)) as [color Hcolor]
    by (apply lookup_lt_is_Some; lia).
  unfold index. destruct (Z.ltb_spec x 0); [lia|].
  rewrite list_lookup_imap, Hcolor. simpl.
  eexists. split; [done|]. simpl. split; [lia|]. split; [lia|].
  unfold subChunkOf.
  rewrite !aligned_offset by (done || (unfold MAX_CHUNK_SIZE in *; lia)).
  by rewrite Hcall.
Qed.

Lemma getCanvasSection_ok :
  0 <= width → 0 <= height → fullRows contract →
  sectionOk (getCanvasSection contract startX startY width height).
Proof.
  intros Hw Hh Hfull. unfold getCanvasSection.
  apply foldl_invariant; [apply placeholder_ok|].
  intros res chunkY [HY HdY]%range_by_spec Hres; [|done|lia].
  apply foldl_invariant; [done|].
  intros res' chunkX [HX HdX]%range_by_spec Hres'; [|done|lia].
  rewrite Z.sub_0_r in HdX, HdY. by apply fetchSubChunk_ok.
Qed.

End CanvasSection.

Section CanvasSectionTotal.
Import CanvasStore Web3Utils CanvasService.

(** C8 (as amended).  For all [startX], [startY] and non-negative [width]
    and [height], and every contract whose answers have full rows,
    [getCanvasSection] resolves with exactly [height] rows of exactly
    [width] cells; the cell at offset (x, y) is a pixel with coordinates
    (startX + x, startY + y), and it has the placeholder color when the
    contract rejected the fetch of its sub-chunk. *)
Theorem getCanvasSection_total contract startX startY width height :
  0 <= width → 0 <= height → fullRows contract →
  let result := getCanvasSection contract startX startY width height in
  length <$> result = replicate (Z.to_nat height) (Z.to_nat width) ∧
  ∀ x y, 0 <= x < width → 0 <= y < height →
    ∃ p, cellAt result y x = Some (Some p) ∧
         Pixel.x p = startX + x ∧ Pixel.y p = startY + y ∧
         (subChunkOf contract startX startY width height x y = None →
          Pixel.color p = DEFAULT_COLOR).
Proof.
  intros Hw Hh Hfull.
  destruct (getCanvasSection_ok contract startX startY width height Hw Hh Hfull)
    as [Hshape Hcells].
  split; [done|]. intros x y Hx Hy.
  destruct (Hcells x y Hx Hy) as (v & Hv & p & -> & Hp). by exists p.
Qed.

Lemma patchyContract_fullRows : fullRows patchyContract.
Proof.
  intros sx sy w h rawData y row Hcall Hy Hrow. unfold patchyContract in Hcall.
  destruct (sx =? 50); [done|]. injection Hcall as <-.
  apply lookup_replicate in Hrow as [-> _]. rewrite length_replicate. lia.
Qed.

Lemma getCanvasSection_total_witness :
  let result := getCanvasSection patchyContract 40 60 12 11 in
  length <$> result = replicate 11%nat 12%nat ∧
  ∀ x y, 0 <= x < 12 → 0 <= y < 11 →
    ∃ p, cellAt result y x = Some (Some p) ∧
         Pixel.x p = 40 + x ∧ Pixel.y p = 60 + y ∧
         (subChunkOf patchyContract 40 60 12 11 x y = None →
          Pixel.color p = DEFAULT_COLOR).
Proof.
  apply (getCanvasSection_total patchyContract 40 60 12 11);
    [lia | lia | apply patchyContract_fullRows].
Defined.

(** C8 fails as stated: when the contract answers a 1x1 request with one
    empty row, the call resolves with a row whose only slot is
    [undefined], not a cell with coordinates. *)
Lemma getCanvasSection_undefined_cell :
  getCanvasSection emptyRowContract 0 0 1 1 = [[None]] ∧
  ¬ (∀ x y, 0 <= x < 1 → 0 <= y < 1 →
       ∃ p, cellAt (getCanvasSection emptyRowContract 0 0 1 1) y x = Some (Some p) ∧
            Pixel.x p = 0 + x ∧ Pixel.y p = 0 + y).
Proof.
  split; [reflexivity|].
  intros H. destruct (H 0 0 ltac:(lia) ltac:(lia)) as (p & Hp & _).
  discriminate Hp.
Qed.

End CanvasSectionTotal.

(** What the patchy contract yields for a 12x11 section at (40,60): red
    pixels where the fetch succeeded, placeholders in columns 50 and 51. *)
Example getCanvasSection_patchy :
  CanvasStore.cellAt (CanvasService.getCanvasSection CanvasService.patchyContract 40 60 12 11) 3 2
    = Some (Some (Pixel.mk 42 63 "#ff0000" None)) ∧
  CanvasStore.cellAt (CanvasService.getCanvasSection CanvasService.patchyContract 40 60 12 11) 10 11
    = Some (Some (Pixel.mk 51 70 DEFAULT_COLOR None)).
Proof. split; vm_compute; reflexivity. Qed.

(* ===================================================================== *)
(** * The reconnect logic of the event subscription                       *)
(* ===================================================================== *)

Section Reconnect.
Import Subscription.

(** A failed reconnect below the limit schedules the next attempt with the
    doubled delay. *)
Lemma failed_reconnect_below_limit k d r :
  r ≠ Reattached → 0 <= k < MAX_RECONNECT_ATTEMPTS →
  (step (mkState false k (Some d)) (TimerExpires r)).1 =
    mkState false (k + 1) (Some (RECONNECT_DELAY * 2 ^ k)) ∧
  filter isTimer (step (mkState false k (Some d)) (TimerExpires r)).2 =
    [SetTimeout (RECONNECT_DELAY * 2 ^ k)].
Proof.
  intros Hr Hk. unfold step, timerFires, attemptReconnect. cbn [timer reconnectAttempts isConnected].
  destruct (Z.ltb_spec k MAX_RECONNECT_ATTEMPTS); [|lia].
  replace (k + 1 - 1) with k by lia.
  destruct r; done.
Qed.

(** A failed reconnect at the limit schedules nothing. *)
Lemma failed_reconnect_at_limit d r :
  r ≠ Reattached →
  (step (mkState false MAX_RECONNECT_ATTEMPTS (Some d)) (TimerExpires r)).1 = abandoned ∧
  filter isTimer (step (mkState false MAX_RECONNECT_ATTEMPTS (Some d)) (TimerExpires r)).2 = [] ∧
  filter reachesOwner (step (mkState false MAX_RECONNECT_ATTEMPTS (Some d)) (TimerExpires r)).2 = [].
Proof. intros Hr. destruct r; done. Qed.

Lemma run_app s xs ys :
  run s (xs ++ ys) =
  let '(s1, e1) := run s xs in
  let '(s2, e2) := run s1 ys in (s2, e1 ++ e2).
Proof.
  revert s. induction xs as [|x xs IH]; intros s; simpl.
  - by destruct (run s ys).
  - destruct (step s x) as [s1 e1]. rewrite IH.
    destruct (run s1 xs) as [s2 e2]. destruct (run s2 ys) as [s3 e3].
    by rewrite app_assoc.
Qed.

Lemma run_snoc s xs x :
  (run s (xs ++ [x])).1 = (step (run s xs).1 x).1.
Proof.
  rewrite run_app. destruct (run s xs) as [s1 e1]. simpl.
  by destruct (step s1 x) as [s2 e2].
Qed.

(** After the connection is lost and [k] reconnects in a row have failed,
    attempt [k + 1] is pending. *)
Lemma consecutive_failures fails :
  Forall (λ r, r ≠ Reattached) fails →
  Z.of_nat (length fails) < MAX_RECONNECT_ATTEMPTS →
  (run initial (ProviderError :: (TimerExpires <$> fails))).1 =
    mkState false (Z.of_nat (length fails) + 1)
      (Some (RECONNECT_DELAY * 2 ^ Z.of_nat (length fails))).
Proof.
  induction fails as [|r fails IH] using rev_ind; intros Hall Hlen; [done|].
  apply Forall_app in Hall as [Hall Hr]. apply Forall_inv in Hr.
  rewrite length_app in Hlen |- *. cbn [length] in Hlen |- *.
  rewrite fmap_app.
  change (ProviderError :: (TimerExpires <$> fails) ++ (TimerExpires <$> [r]))
    with ((ProviderError :: (TimerExpires <$> fails)) ++ [TimerExpires r]).
  rewrite run_snoc, IH by (done || lia).
  assert (Hk : 0 <= Z.of_nat (length fails) + 1 < MAX_RECONNECT_ATTEMPTS)
    by (unfold MAX_RECONNECT_ATTEMPTS in *; lia).
  rewrite (proj1 (failed_reconnect_below_limit _ _ r Hr Hk)).
  f_equal; [lia|]. do 2 f_equal. lia.
Qed.

(** Once abandoned, no input schedules a timer or changes the state. *)
Lemma abandoned_absorbing inputs :
  (run abandoned inputs).1 = abandoned ∧
  filter isTimer (run abandoned inputs).2 = [].
Proof.
  induction inputs as [|i inputs [IHs IHe]]; [done|]. simpl.
  assert ((step abandoned i).1 = abandoned ∧
          filter isTimer (step abandoned i).2 = []) as [Hs He]
    by (by destruct i).
  destruct (step abandoned i) as [s1 e1]. simpl in Hs, He. subst s1.
  destruct (run abandoned inputs) as [s2 e2]. simpl in *.
  split; [done|]. by rewrite filter_app, He, IHe.
Qed.

(** C3 (as amended).  With five attempts and a base delay of 2000 ms: the
    timer of reconnect attempt [n] (1 <= n <= 5), set after the connection
    is lost and [n - 1] reconnects in a row have failed, has the delay
    2000 * 2^(n-1); a successful reconnect sets the attempt counter to 0 and
    the subscription is connected again; after five failed attempts in a
    row the subscription is abandoned: no timer is pending, and whatever
    happens next leaves it abandoned and sets no timer.  The failure itself
    is written to the console only. *)
Theorem reconnect_backoff_and_abandon :
  (∀ n fails,
     1 <= n <= MAX_RECONNECT_ATTEMPTS →
     Z.of_nat (length fails) = n - 1 → Forall (λ r, r ≠ Reattached) fails →
     (run initial (ProviderError :: (TimerExpires <$> fails))).1 =
       mkState false n (Some (RECONNECT_DELAY * 2 ^ (n - 1)))) ∧
  (∀ s d, timer s = Some d →
     (step s (TimerExpires Reattached)).1 = mkState true 0 None) ∧
  (∀ fails,
     Z.of_nat (length fails) = MAX_RECONNECT_ATTEMPTS →
     Forall (λ r, r ≠ Reattached) fails →
     (run initial (ProviderError :: (TimerExpires <$> fails))).1 = abandoned) ∧
  (∀ inputs,
     (run abandoned inputs).1 = abandoned ∧
     filter isTimer (run abandoned inputs).2 = []) ∧
  (∀ d r, r ≠ Reattached →
     let effects :=
       (step (mkState false MAX_RECONNECT_ATTEMPTS (Some d)) (TimerExpires r)).2 in
     filter isTimer effects = [] ∧ filter reachesOwner effects = [] ∧
     last effects = Some (ConsoleError "Max reconnect attempts reached, giving up")).
Proof.
  split; [|split; [|split; [|split]]].
  - intros n fails Hn Hlen Hall.
    rewrite consecutive_failures by (done || lia).
    rewrite Hlen. by replace (n - 1 + 1) with n by lia.
  - intros s d Hd. unfold step. by rewrite Hd.
  - intros fails Hlen Hall.
    destruct fails as [|r fails _] using rev_ind; [done|].
    apply Forall_app in Hall as [Hall Hr]. apply Forall_inv in Hr.
    rewrite length_app in Hlen. cbn [length] in Hlen.
    rewrite fmap_app.
    change (ProviderError :: (TimerExpires <$> fails) ++ (TimerExpires <$> [r]))
      with ((ProviderError :: (TimerExpires <$> fails)) ++ [TimerExpires r]).
    rewrite run_snoc, consecutive_failures
      by (done || (unfold MAX_RECONNECT_ATTEMPTS in *; lia)).
    replace (Z.of_nat (length fails) + 1) with MAX_RECONNECT_ATTEMPTS by lia.
    apply (failed_reconnect_at_limit _ r Hr).
  - apply abandoned_absorbing.
  - intros d r Hr. by destruct r.
Qed.

(** C3 fails as stated: through the loss of the connection and five failed
    reconnects, the function the owner passed to [onPixelPainted] is never
    called; the owner is told nothing. *)
Lemma abandonment_not_reported :
  (run initial (ProviderError :: replicate 5 (TimerExpires OnThrows))).1 = abandoned ∧
  ¬ ∃ e, e ∈ (run initial (ProviderError :: replicate 5 (TimerExpires OnThrows))).2 ∧
         reachesOwner e = true.
Proof.
  split; [reflexivity|].
  intros (e & He & Howner).
  assert (Hnone : filter (λ e, reachesOwner e = true)
            (run initial (ProviderError :: replicate 5 (TimerExpires OnThrows))).2 = [])
    by reflexivity.
  assert (e ∈ filter (λ e, reachesOwner e = true)
            (run initial (ProviderError :: replicate 5 (TimerExpires OnThrows))).2)
    by (by apply list_elem_of_filter).
  rewrite Hnone in H. by apply elem_of_nil in H.
Qed.

End Reconnect.

(* ===================================================================== *)
(** * Service initialisation                                              *)
(* ===================================================================== *)

Section Initialisation.
Import ServiceProvider.

(** [getDimensions] absorbs the failure of both contract calls. *)
Lemma getDimensions_absorbs_failure :
  CanvasService.getDimensions None None = CanvasService.mkDimensions 100 100.
Proof. reflexivity. Qed.

(** The retry counter works as a threshold for attempts that throw: the mock
    service is installed on the run that follows the third throw in a row,
    and not while fewer have thrown. *)
Lemma degrades_after_three_throws a :
  let s3 := mount (replicate 3 contractTestThrows ++ [a]) initial in
  (∀ k, (k < 3)%nat →
        isUsingFallback (mount (replicate k contractTestThrows) initial) = false ∧
        canvasService (mount (replicate k contractTestThrows) initial) = None ∧
        retryCount (mount (replicate k contractTestThrows) initial) = Z.of_nat k) ∧
  canvasService s3 = Some Mock ∧ isUsingFallback s3 = true ∧ retryCount s3 = 3.
Proof.
  split; [|done].
  intros k Hk. destruct k as [|[|[|k]]]; try lia; done.
Qed.

(** C2.  When the contract's dimension calls fail, on the first attempt and
    on every attempt the environment would still offer, the first run
    installs the live service with the default dimensions, leaves the
    fallback flag and the retry counter at their initial values, and no
    further attempt is made: the mock service is never installed. *)
Theorem dimension_failures_never_degrade rest :
  let s := mount (dimensionCallsFail :: rest) initial in
  canvasService s = Some Ethers ∧
  isUsingFallback s = false ∧
  retryCount s = 0 ∧
  loading s = false ∧
  dimensions s = CanvasService.mkDimensions 100 100 ∧
  s = mount [dimensionCallsFail] initial.
Proof. done. Qed.

End Initialisation.

(* ===================================================================== *)
(** * Further properties of the store                                     *)
(* ===================================================================== *)

Section ChunkKeys.
Import CanvasStore.

Lemma pretty_N_go_commaFree x s : commaFree s → commaFree (pretty_N_go x s).
Proof.
  revert s. induction (N.lt_wf_0 x) as [x _ IH]. intros s Hs.
  destruct (decide (x = 0%N)) as [->|Hx]; [by rewrite pretty_N_go_0|].
  rewrite pretty_N_go_step by lia.
  apply IH; [apply N.div_lt; lia|].
  apply Forall_cons. split; [|done].
  unfold pretty_N_char. by repeat case_match.
Qed.

Lemma pretty_Z_commaFree (z : Z) : commaFree (pretty z).
Proof.
  assert (HN : ∀ n : N, commaFree (pretty n)).
  { intros n. unfold pretty, pretty_N. case_decide.
    - by repeat constructor.
    - apply pretty_N_go_commaFree. constructor. }
  destruct z as [|p|p]; unfold pretty, pretty_Z.
  - by repeat constructor.
  - apply HN.
  - apply Forall_cons. split; [done|apply HN].
Qed.

(** Two comma-free strings followed by a comma and a rest agree when the
    whole strings do. *)
Lemma comma_split a b c d :
  commaFree a → commaFree c →
  a +:+ String "," b = c +:+ String "," d → a = c ∧ b = d.
Proof.
  revert c. induction a as [|x a IH]; intros [|y c] Ha Hc Heq;
    unfold append in Heq; fold append in Heq.
  - by injection Heq as ->.
  - injection Heq as <- _. by apply Forall_inv in Hc.
  - injection Heq as -> _. by apply Forall_inv in Ha.
  - injection Heq as -> Heq.
    apply Forall_inv_tail in Ha, Hc.
    by destruct (IH c Ha Hc Heq) as [-> ->].
Qed.

(** The key determines the origin. *)
Lemma getChunkKey_inj x1 y1 x2 y2 :
  getChunkKey x1 y1 = getChunkKey x2 y2 → x1 = x2 ∧ y1 = y2.
Proof.
  unfold getChunkKey. intros Heq.
  change (pretty x1 +:+ String "," (pretty y1) =
          pretty x2 +:+ String "," (pretty y2)) in Heq.
  apply comma_split in Heq as [Hx Hy]; [|apply pretty_Z_commaFree..].
  split; by apply (inj pretty).
Qed.

(** X1.  Distinct chunk origins have distinct keys, so no two chunks share
    an entry of [chunks] or of [loadingChunks]. *)
Theorem chunk_keys_distinct x1 y1 x2 y2 :
  (x1, y1) ≠ (x2, y2) → getChunkKey x1 y1 ≠ getChunkKey x2 y2.
Proof. intros Hne [-> ->]%getChunkKey_inj. by apply Hne. Qed.

Lemma chunk_keys_distinct_witness : getChunkKey 20 0 ≠ getChunkKey 2 0.
Proof. apply chunk_keys_distinct. discriminate. Defined.

End ChunkKeys.

Section ReadYourWrites.
Import CanvasStore.

(** X2.  After a chunk is merged at the origin of the chunk that contains
    (x, y), [getPixel x y] reads the slot of that chunk at the pixel's
    offset, and [null] when the slot is missing or undefined. *)
Theorem getPixel_setChunk x y chunk s :
  let startX := floor_div x (chunkSize s) * chunkSize s in
  let startY := floor_div y (chunkSize s) * chunkSize s in
  getPixel x y (setChunk startX startY chunk s) =
  pixelAt chunk (y - startY) (x - startX).
Proof.
  cbv zeta. unfold getPixel, setChunk, pixelAt, cellAt.
  cbn [chunks chunkSize]. rewrite lookup_insert_eq.
  destruct (index chunk _) as [row|]; [|done]. simpl.
  by destruct (index row _) as [[p|]|].
Qed.

Lemma getPixel_pixelAt x y s :
  getPixel x y s =
  chunk ← chunks s !! getChunkKey (floor_div x (chunkSize s) * chunkSize s)
                                  (floor_div y (chunkSize s) * chunkSize s);
  pixelAt chunk (y - floor_div y (chunkSize s) * chunkSize s)
                (x - floor_div x (chunkSize s) * chunkSize s).
Proof.
  unfold getPixel, pixelAt, cellAt.
  destruct (chunks s !! _) as [chunk|]; [|done]. simpl.
  destruct (index chunk _) as [row|]; [|done]. simpl.
  by destruct (index row _) as [[p|]|].
Qed.

Lemma updatePixel_chunkSize x y color now s :
  chunkSize (updatePixel x y color now s) = chunkSize s.
Proof. unfold updatePixel. by destruct (chunks s !! _). Qed.

(** X3.  [getPixel] after [updatePixel] on the same coordinates returns the
    pixel that was there with the new color and time; a pixel that was not
    cached is still not cached. *)
Theorem getPixel_updatePixel_same x y color now s :
  getPixel x y (updatePixel x y color now s) =
  repaint color now <$> getPixel x y s.
Proof.
  rewrite !getPixel_pixelAt, updatePixel_chunkSize.
  unfold updatePixel.
  destruct (chunks s !! _) as [chunk|] eqn:Hk; [|by rewrite Hk].
  cbn [chunks]. rewrite lookup_insert_eq. simpl.
  unfold pixelAt. rewrite paintInChunk_target.
  by destruct (cellAt chunk _ _) as [[p|]|].
Qed.

(** X4.  [updatePixel] changes what [getPixel] returns at no other
    coordinates. *)
Theorem getPixel_updatePixel_other x y x' y' color now s :
  (x', y') ≠ (x, y) →
  getPixel x' y' (updatePixel x y color now s) = getPixel x' y' s.
Proof.
  intros Hne.
  rewrite !getPixel_pixelAt, updatePixel_chunkSize.
  unfold updatePixel.
  destruct (chunks s !! getChunkKey (floor_div x _ * _) _) as [chunk|] eqn:Hk;
    [|done].
  cbn [chunks].
  destruct (decide (getChunkKey (floor_div x (chunkSize s) * chunkSize s)
                                (floor_div y (chunkSize s) * chunkSize s)
                    = getChunkKey (floor_div x' (chunkSize s) * chunkSize s)
                                  (floor_div y' (chunkSize s) * chunkSize s)))
    as [Heq|Hkey].
  - rewrite <- Heq, lookup_insert_eq, Hk. simpl.
    apply getChunkKey_inj in Heq as [Hx Hy]. rewrite <- Hx, <- Hy.
    unfold pixelAt. rewrite paintInChunk_other; [done|].
    destruct (decide (y' = y)) as [->|?]; [right|left; lia].
    assert (x' ≠ x) by congruence. lia.
  - by rewrite lookup_insert_ne.
Qed.

Lemma getPixel_updatePixel_other_witness :
  getPixel 3 4 (updatePixel 5 5 "#FF0000" 1700000000000
                  (setChunk 0 0 [[Some (Pixel.mk 0 0 "#FFFFFF" None)]] initial))
  = getPixel 3 4 (setChunk 0 0 [[Some (Pixel.mk 0 0 "#FFFFFF" None)]] initial).
Proof. apply getPixel_updatePixel_other. discriminate. Defined.

End ReadYourWrites.

Section ReachableStores.
Import CanvasStore.


(** The clamp of [setScale] leaves a scale that is in range as it is. *)
Lemma setScale_in_range q s :
  (1 <= q)%Q → (q <= 40)%Q → (scale (viewport (setScale q s)) == q)%Q.
Proof.
  intros Hlo Hhi. simpl.
  rewrite (Q.min_r (40 # 1) q) by done. by rewrite Q.max_r.
Qed.

End ReachableStores.

Section VisibleOrigins.
Import CanvasStore.

Lemma range_by_lower fuel start stop step v :
  0 < step → v ∈ range_by fuel start stop step → start <= v.
Proof.
  intros Hstep. revert start.
  induction fuel as [|fuel IH]; intros start; simpl; [by intros ?%elem_of_nil|].
  destruct (start <? stop); [|by intros ?%elem_of_nil].
  intros [->|Hin%IH]%elem_of_cons; lia.
Qed.

Lemma range_by_NoDup fuel start stop step :
  0 < step → NoDup (range_by fuel start stop step).
Proof.
  intros Hstep. revert start.
  induction fuel as [|fuel IH]; intros start; simpl; [constructor|].
  destruct (start <? stop); [|constructor].
  constructor; [|apply IH].
  intros Hin%range_by_lower; lia.
Qed.

(** X6.  The origins [getVisibleChunks] returns are pairwise distinct,
    aligned to the chunk size and inside the grid, so that the width and
    the height the loader requests for each, [min(chunkSize, width -
    startX)] and [min(chunkSize, height - startY)], are at least 1. *)
Theorem getVisibleChunks_origins w s :
  0 < chunkSize s →
  NoDup (getVisibleChunks w s) ∧
  ∀ c, c ∈ getVisibleChunks w s →
    (chunkSize s | startX c) ∧ (chunkSize s | startY c) ∧
    0 <= startX c < canvasWidth s ∧ 0 <= startY c < canvasHeight s ∧
    1 <= Z.min (chunkSize s) (canvasWidth s - startX c) ∧
    1 <= Z.min (chunkSize s) (canvasHeight s - startY c).
Proof.
  intros Hcs. split.
  - unfold getVisibleChunks. cbv zeta. apply NoDup_bind.
    + intros y1 y2 c _ _ (x1 & -> %list_elem_of_singleton & _)%list_elem_of_bind
        (x2 & Heq%list_elem_of_singleton & _)%list_elem_of_bind.
      by injection Heq.
    + intros y _. apply NoDup_bind.
      * intros x1 x2 c _ _ ->%list_elem_of_singleton Heq%list_elem_of_singleton.
        by injection Heq.
      * intros x _. apply NoDup_singleton.
      * by apply range_by_NoDup.
    + by apply range_by_NoDup.
  - intros c [(Hx & kx & Hkx) (Hy & ky & Hky)]%elem_of_getVisibleChunks; [|done].
    set (C := chunkSize s) in *.
    pose proof (floor_div_bounds (visibleStartX s) C Hcs).
    pose proof (floor_div_bounds (visibleStartY s) C Hcs).
    pose proof (ceil_div_bounds (visibleEndX w s) C Hcs).
    pose proof (ceil_div_bounds (visibleEndY w s) C Hcs).
    assert (0 <= visibleStartX s) by apply Z.le_max_l.
    assert (0 <= visibleStartY s) by apply Z.le_max_l.
    assert (visibleEndX w s <= canvasWidth s) by apply Z.le_min_l.
    assert (visibleEndY w s <= canvasHeight s) by apply Z.le_min_l.
    assert (0 <= floor_div (visibleStartX s) C) by (apply Z.div_pos; lia).
    assert (0 <= floor_div (visibleStartY s) C) by (apply Z.div_pos; lia).
    assert (startX c + C <= ceil_div (visibleEndX w s) C * C).
    { assert (kx + 1 <= ceil_div (visibleEndX w s) C) by nia. nia. }
    assert (startY c + C <= ceil_div (visibleEndY w s) C * C).
    { assert (ky + 1 <= ceil_div (visibleEndY w s) C) by nia. nia. }
    split; [by exists kx|]. split; [by exists ky|]. nia.
Qed.

Lemma getVisibleChunks_origins_witness :
  NoDup (getVisibleChunks scenario_window scenario_store) ∧
  ∀ c, c ∈ getVisibleChunks scenario_window scenario_store →
    (chunkSize scenario_store | startX c) ∧ (chunkSize scenario_store | startY c) ∧
    0 <= startX c < canvasWidth scenario_store ∧
    0 <= startY c < canvasHeight scenario_store ∧
    1 <= Z.min (chunkSize scenario_store) (canvasWidth scenario_store - startX c) ∧
    1 <= Z.min (chunkSize scenario_store) (canvasHeight scenario_store - startY c).
Proof. apply getVisibleChunks_origins. reflexivity. Defined.

End VisibleOrigins.

Section Offscreen.
Import CanvasStore.

Lemma range_by_empty fuel start stop step :
  stop <= start → range_by fuel start stop step = [].
Proof.
  intros Hle. destruct fuel; simpl; [done|].
  by destruct (Z.ltb_spec start stop); [lia|].
Qed.

(** The unclamped start of the visible range is left of its unclamped end
    when the window has a positive extent. *)
Lemma floor_lt_ceiling (offset scale : Q) (extent : Z) :
  (0 < scale)%Q → 0 < extent →
  Qfloor (Qdiv (Qopp offset) scale) <
  Qceiling (Qdiv (Qminus (inject_Z extent) offset) scale).
Proof.
  intros Hs He.
  rewrite Zlt_Qlt.
  eapply Qle_lt_trans; [apply Qfloor_le|].
  eapply Qlt_le_trans; [|apply Qle_ceiling].
  unfold Qdiv. apply Qmult_lt_r; [by apply Qinv_lt_0_compat|].
  assert (inject_Z 0 < inject_Z extent)%Q by (by rewrite <- Zlt_Qlt).
  change (inject_Z 0) with 0%Q in H. lra.
Qed.

Lemma aligned_range_empty lo hi W a b C :
  0 < C → (C | W) → a < b →
  lo = Z.max 0 a → hi = Z.min W b → hi <= lo →
  ceil_div hi C * C <= floor_div lo C * C.
Proof.
  intros HC [m ->] Hab -> -> Hle.
  pose proof (floor_div_bounds (Z.max 0 a) C HC).
  pose proof (ceil_div_bounds (Z.min (m * C) b) C HC).
  assert (0 <= floor_div (Z.max 0 a) C) by (apply Z.div_pos; lia).
  destruct (Z.le_gt_cases (m * C) b) as [HWb|HbW].
  - rewrite Z.min_l in * by done.
    assert (m <= floor_div (Z.max 0 a) C) by nia.
    assert (ceil_div (m * C) C <= m) by nia. nia.
  - rewrite Z.min_r in * by lia.
    assert (b <= 0) by lia.
    assert (ceil_div b C <= 0) by nia. nia.
Qed.

(** X7.  On a grid whose sides are multiples of the chunk size (as the
    default 100x100 grid with chunks of 20), with a positive scale and a
    window of positive size, [getVisibleChunks] returns no chunk when no
    cell is visible. *)
Theorem getVisibleChunks_offscreen_empty w s :
  0 < chunkSize s →
  (chunkSize s | canvasWidth s) → (chunkSize s | canvasHeight s) →
  (0 < scale (viewport s))%Q → 0 < innerWidth w → 0 < innerHeight w →
  (∀ cx cy, ¬ visible w s cx cy) →
  getVisibleChunks w s = [].
Proof.
  intros HC HW HH Hs Hw Hh Hnone.
  pose proof (floor_lt_ceiling (offsetX (viewport s)) _ _ Hs Hw) as Hx.
  pose proof (floor_lt_ceiling (offsetY (viewport s)) _ _ Hs Hh) as Hy.
  assert (visibleEndX w s <= visibleStartX s ∨ visibleEndY w s <= visibleStartY s)
    as [Hex|Hey].
  { destruct (Z.le_gt_cases (visibleEndX w s) (visibleStartX s)); [by left|].
    destruct (Z.le_gt_cases (visibleEndY w s) (visibleStartY s)); [by right|].
    destruct (Hnone (visibleStartX s) (visibleStartY s)). unfold visible. lia. }
  - pose proof (aligned_range_empty _ _ _ _ _ _ HC HW Hx eq_refl eq_refl Hex) as He.
    unfold getVisibleChunks. cbv zeta.
    fold (visibleStartX s) (visibleEndX w s) in He.
    rewrite (range_by_empty _ (floor_div (visibleStartX s) _ * _)) by exact He.
    by induction (range_by _ _ _ _).
  - pose proof (aligned_range_empty _ _ _ _ _ _ HC HH Hy eq_refl eq_refl Hey) as He.
    unfold getVisibleChunks. cbv zeta.
    fold (visibleStartY s) (visibleEndY w s) in He.
    by rewrite (range_by_empty _ (floor_div (visibleStartY s) _ * _)) by exact He.
Qed.

Lemma getVisibleChunks_offscreen_empty_witness :
  getVisibleChunks offscreen_window panned_away = [].
Proof.
  apply getVisibleChunks_offscreen_empty; try reflexivity.
  - by exists 5.
  - by exists 5.
  - intros cx cy [Hx _]. change (100 <= cx < 100) in Hx. lia.
Defined.

End Offscreen.

(* ===================================================================== *)
(** * The pointer handlers of the canvas                                  *)
(* ===================================================================== *)

Section PointerHandlers.
Import CanvasStore CanvasView.




End PointerHandlers.

Section PointerHandlers2.
Import CanvasStore CanvasView.





End PointerHandlers2.

(* ===================================================================== *)
(** * Further properties of the chunk loader                              *)
(* ===================================================================== *)

Section LoaderProperties.
Import CanvasStore Loader.

Lemma loadLoop_chunks snap todo s :
  chunks (loadLoop snap todo s).1 = chunks s.
Proof.
  induction todo as [|c rest IH]; simpl; [done|].
  by destruct (needsLoad snap c).
Qed.

Lemma updatePixel_keeps_chunks x y color now s k :
  is_Some (chunks s !! k) → is_Some (chunks (updatePixel x y color now s) !! k).
Proof.
  unfold updatePixel. destruct (chunks s !! getChunkKey _ _) eqn:Hk; [|done].
  cbn [chunks]. intros Hs. rewrite lookup_insert. by case_decide.
Qed.

Lemma resume_keeps_chunks t r s k :
  is_Some (chunks s !! k) → is_Some (chunks (resume t r s).1 !! k).
Proof.
  intros Hk. destruct t as [snap c rest|c rest|], r as [chunkData|]; simpl;
    rewrite ?loadLoop_chunks; simpl; try done;
    rewrite lookup_insert; by case_decide.
Qed.

Lemma react_keeps_chunks w sys e k :
  is_Some (chunks (store sys) !! k) →
  is_Some (chunks (store (react w sys e)) !! k).
Proof.
  intros Hk. destruct e as [| |i r|x y color now]; simpl.
  - unfold loadVisibleChunks.
    pose proof (loadLoop_chunks (render (store sys))
                  (getVisibleChunks w (store sys)) (store sys)) as Hc.
    destruct (loadLoop _ _ _) as [s t]. simpl in *. by rewrite Hc.
  - done.
  - destruct (tasks sys !! i) as [t|]; [|done].
    pose proof (resume_keeps_chunks t r (store sys) k Hk) as Hr.
    by destruct (resume t r (store sys)).
  - by apply updatePixel_keeps_chunks.
Qed.

(** X10.  Nothing evicts a chunk: a key that is present stays present
    through every sequence of loads, refresh ticks, fetch settlements and
    paint events. *)
Theorem chunks_never_evicted w sys es k :
  is_Some (chunks (store sys) !! k) →
  is_Some (chunks (store (run w sys es)) !! k).
Proof.
  revert sys. induction es as [|e es IH]; intros sys Hk; simpl; [done|].
  apply IH. by apply react_keeps_chunks.
Qed.

Lemma needsLoad_absent s c :
  needsLoad (render s) c = true →
  chunks s !! getChunkKey (startX c) (startY c) = None.
Proof. unfold needsLoad, render. simpl. by destruct (chunks s !! _). Qed.

Lemma loadLoop_fresh_exclusive todo s :
  exclusive s → exclusive (loadLoop (render s) todo s).1.
Proof.
  intros Hs. induction todo as [|c rest IH]; simpl; [done|].
  destruct (needsLoad (render s) c) eqn:Hneed; [|done]. simpl.
  apply setChunkLoading_true_exclusive; [|done]. by apply needsLoad_absent.
Qed.

(** X11.  A key becomes both present and loading only through an
    invocation of [loadVisibleChunks] that resumes after an [await]: a
    call of [loadVisibleChunks] on the store it was rendered from, a
    refresh tick, a paint event and the settlement of a refresh fetch all
    keep the keys exclusive. *)
Theorem exclusive_unless_loader_resumes w sys e :
  exclusive (store sys) →
  (∀ i r snap c rest, e = Settle i r → tasks sys !! i ≠ Some (Loading snap c rest)) →
  exclusive (store (react w sys e)).
Proof.
  intros Hex Hloader. destruct e as [| |i r|x y color now]; simpl.
  - unfold loadVisibleChunks.
    pose proof (loadLoop_fresh_exclusive (getVisibleChunks w (store sys)) _ Hex).
    by destruct (loadLoop _ _ _).
  - done.
  - destruct (tasks sys !! i) as [[snap c rest|c rest|]|] eqn:Ht; simpl; try done.
    + by destruct (Hloader i r snap c rest).
    + destruct r; simpl; [by apply setChunk_exclusive|done].
  - by apply updatePixel_exclusive.
Qed.


Lemma chunks_never_evicted_witness :
  is_Some (chunks (store (run scenario_window
                            (mkSystem (setChunk 0 0 fetched_data initial) [])
                            [Load; Tick; Settle 0 Rejected;
                             Painted 3 3 "#FF0000" 1700000000000]))
           !! getChunkKey 0 0).
Proof.
  apply chunks_never_evicted. exists fetched_data. apply lookup_insert_eq.
Defined.

Lemma initial_exclusive : exclusive initial.
Proof.
  intros k [[chunk Hp] _]. unfold initial in Hp. simpl in Hp.
  by rewrite lookup_empty in Hp.
Qed.

Lemma exclusive_unless_loader_resumes_witness :
  exclusive (store (react scenario_window (mkSystem initial []) Load)).
Proof.
  apply exclusive_unless_loader_resumes; [apply initial_exclusive|].
  intros i r snap c rest Heq. discriminate Heq.
Defined.

Lemma loadLoop_loading_other snap todo s c :
  c ∉ todo →
  loadingChunks (loadLoop snap todo s).1 !! getChunkKey (startX c) (startY c) =
  loadingChunks s !! getChunkKey (startX c) (startY c).
Proof.
  induction todo as [|c' rest IH]; simpl; [done|].
  intros [Hne Hrest]%not_elem_of_cons.
  destruct (needsLoad snap c'); [|by apply IH]. simpl.
  apply lookup_insert_ne. intros [Hx Hy]%getChunkKey_inj.
  destruct c, c'; simpl in *. congruence.
Qed.

(** X12.  When the fetch of an invocation of [loadVisibleChunks] is
    rejected, the chunk's loading mark is cleared and no chunk is
    installed: if the chunk was absent and its origin does not occur again
    in the rest of the loop, the next call of [loadVisibleChunks] finds it
    in need of loading. *)
Theorem rejected_fetch_can_be_retried snap c rest s :
  chunks s !! getChunkKey (startX c) (startY c) = None →
  c ∉ rest →
  let s' := (resume (Loading snap c rest) Rejected s).1 in
  chunks s' !! getChunkKey (startX c) (startY c) = None ∧
  loadingChunks s' !! getChunkKey (startX c) (startY c) = Some false ∧
  needsLoad (render s') c = true.
Proof.
  intros Habsent Hrest. cbv zeta. simpl.
  assert (Hc : chunks (loadLoop snap rest
                         (setChunkLoading (startX c) (startY c) false s)).1
               !! getChunkKey (startX c) (startY c) = None)
    by (by rewrite loadLoop_chunks).
  assert (Hl : loadingChunks (loadLoop snap rest
                                (setChunkLoading (startX c) (startY c) false s)).1
               !! getChunkKey (startX c) (startY c) = Some false).
  { rewrite loadLoop_loading_other by done. simpl. apply lookup_insert_eq. }
  split; [done|]. split; [done|].
  unfold needsLoad, render. cbn [snapChunks snapLoading]. by rewrite Hc, Hl.
Qed.

Lemma rejected_fetch_can_be_retried_witness :
  needsLoad
    (render (resume (Loading (render initial) (mkOrigin 0 0) [mkOrigin 20 0])
               Rejected (setChunkLoading 0 0 true initial)).1)
    (mkOrigin 0 0) = true.
Proof.
  apply (rejected_fetch_can_be_retried (render initial) (mkOrigin 0 0)
           [mkOrigin 20 0] (setChunkLoading 0 0 true initial)).
  - apply lookup_empty.
  - intros Hin%list_elem_of_singleton. discriminate Hin.
Defined.

End LoaderProperties.

Section Colors.
Import Web3Utils.

Lemma substring_all s : String.substring 0 (String.length s) s = s.
Proof. induction s as [|c s IH]; simpl; [done|]. by rewrite IH. Qed.

Lemma padStart_long n c s : (n <= String.length s)%nat → padStart n c s = s.
Proof.
  intros Hn. unfold padStart.
  by replace (n - String.length s)%nat with 0%nat by lia.
Qed.

(** X13.  A color of six or more digits survives both conversions:
    [#RRGGBB] sent to the contract and read back is the same string, and so
    is a [0x]-prefixed contract value turned into a hex color and back. *)
Theorem color_round_trip h :
  (6 <= String.length h)%nat →
  bytes3ToHex (hexToBytes3 ("#" +:+ h)) = "#" +:+ h ∧
  hexToBytes3 (bytes3ToHex ("0x" +:+ h)) = "0x" +:+ h.
Proof.
  intros Hlen.
  assert (Hto : hexToBytes3 ("#" +:+ h) = "0x" +:+ h).
  { unfold hexToBytes3, startsWith. change ("#" +:+ h) with (String "#" h).
    cbn. rewrite Nat.sub_0_r. rewrite substring_all.
    by destruct h. }
  assert (Hfrom : bytes3ToHex ("0x" +:+ h) = "#" +:+ h).
  { unfold bytes3ToHex. change ("0x" +:+ h) with (String "0" (String "x" h)).
    cbn. rewrite Nat.sub_0_r, substring_all.
    by rewrite padStart_long. }
  split.
  - by rewrite Hto, Hfrom.
  - by rewrite Hfrom, Hto.
Qed.

Lemma color_round_trip_witness :
  bytes3ToHex (hexToBytes3 "#FF8000") = "#FF8000" ∧
  hexToBytes3 (bytes3ToHex "0xFF8000") = "0xFF8000".
Proof. apply (color_round_trip "FF8000"). simpl. lia. Defined.

End Colors.

Section SectionData.
Import CanvasStore Web3Utils.

(** X14.  [processCanvasSectionData] keeps the shape of the raw data and
    turns the color at row [y], column [x] into a pixel with coordinates
    (startX + x, startY + y) and the converted color; no slot is left
    undefined. *)
Theorem processCanvasSectionData_cells rawData startX startY :
  length <$> processCanvasSectionData rawData startX startY = length <$> rawData ∧
  ∀ x y, 0 <= x → 0 <= y →
    cellAt (processCanvasSectionData rawData startX startY) y x =
    (λ color, Some (Pixel.mk (startX + x) (startY + y) (bytes3ToHex color) None))
      <$> (row ← rawData !! Z.to_nat y; row !! Z.to_nat x).
Proof.
  unfold processCanvasSectionData. split.
  - apply list_eq. intros i.
    rewrite !list_lookup_fmap, list_lookup_imap.
    destruct (rawData !! i) as [row|]; simpl; [|done].
    by rewrite length_imap.
  - intros x y Hx Hy. unfold cellAt, index.
    destruct (Z.ltb_spec y 0); [lia|]. rewrite list_lookup_imap.
    destruct (rawData !! Z.to_nat y) as [row|]; simpl; [|done].
    destruct (Z.ltb_spec x 0); [lia|]. rewrite list_lookup_imap.
    destruct (row !! Z.to_nat x) as [color|]; simpl; [|done].
    by rewrite !Z2Nat.id by done.
Qed.

Lemma processCanvasSectionData_cells_witness :
  cellAt (processCanvasSectionData [["0xff0000"; "0x00ff00"]] 40 60) 0 1 =
  Some (Some (Pixel.mk 41 60 "#00ff00" None)).
Proof.
  destruct (processCanvasSectionData_cells [["0xff0000"; "0x00ff00"]] 40 60)
    as [_ Hcell].
  rewrite (Hcell 1 0) by lia. reflexivity.
Defined.

End SectionData.

Section Transactions.
Import Web3Utils.

(** X15.  Whatever happens, [paintPixel] hands at most one transaction to
    the contract and none without a runner; it reports success exactly when
    the transaction was sent, and then with its hash; every failure carries
    a reason. *)
Theorem paintPixel_outcomes hasRunner submit wait x y color fee :
  let result := (paintPixel hasRunner submit wait x y color fee).1 in
  let sent := (paintPixel hasRunner submit wait x y color fee).2 in
  (length sent <= 1)%nat ∧
  (hasRunner = false → sent = []) ∧
  (success result = true ↔ hasRunner = true ∧ ∃ hash, submit = Sent hash) ∧
  (∀ hash, hasRunner = true → submit = Sent hash →
           transactionHash result = Some hash) ∧
  (success result = false → is_Some (error result) ∧ transactionHash result = None).
Proof.
  cbv zeta. unfold paintPixel.
  destruct hasRunner; simpl.
  - destruct submit as [hash|code message].
    + split; [destruct wait; simpl; lia|]. split; [done|].
      split; [destruct wait; simpl; split; eauto|].
      split; [intros h _ [= ->]; by destruct wait|].
      by destruct wait.
    + destruct (String.eqb code "INSUFFICIENT_FUNDS");
        [|destruct (String.eqb code "ACTION_REJECTED")]; simpl;
        (split; [lia|]); (split; [done|]);
        (split; [split; [done|by intros [_ [h ?]]]|]);
        (split; [done|]); intros _; split; eauto.
  - split; [lia|]. split; [done|].
    split; [split; [done|by intros [? _]]|].
    split; [done|]. intros _. split; eauto.
Qed.

End Transactions.

Section Queue.
Import Web3Utils.

Lemma calls_enqueue rs p :
  Forall queueable rs →
  requestQueue (foldl step p (Call <$> rs)) = requestQueue p ++ rs ∧
  trace (foldl step p (Call <$> rs)) = trace p ∧
  requestDelay (foldl step p (Call <$> rs)) = requestDelay p.
Proof.
  intros Hrs. revert p.
  induction Hrs as [|r rs [Hk He] _ IH]; intros p.
  - simpl. by rewrite app_nil_r.
  - change (foldl step p (Call <$> r :: rs))
      with (foldl step (step p (Call r)) (Call <$> rs)).
    assert (step p (Call r) =
            mkProvider (requestQueue p ++ [r]) true (maxBatchSize p)
              (requestDelay p) (maxTimeout p) (trace p)) as ->.
    { unfold step, send. by rewrite Hk, He. }
    destruct (IH (mkProvider (requestQueue p ++ [r]) true (maxBatchSize p)
                    (requestDelay p) (maxTimeout p) (trace p)))
      as (Hq & Ht & Hd).
    rewrite Hq, Ht, Hd. cbn [requestQueue trace requestDelay].
    by rewrite <- app_assoc.
Qed.

Lemma replies_dispatch replies p :
  length replies = length (requestQueue p) →
  requestQueue (foldl step p ((λ v, Dispatch (Reply v) Silent) <$> replies)) = [] ∧
  trace (foldl step p ((λ v, Dispatch (Reply v) Silent) <$> replies)) =
    trace p ++ (requestQueue p ≫= λ r, [Wait (requestDelay p); Transmit r]).
Proof.
  revert p. induction replies as [|v replies IH]; intros p Hlen.
  - simpl. destruct (requestQueue p); [|done]. simpl. by rewrite app_nil_r.
  - destruct (requestQueue p) as [|r rest] eqn:Hq; [done|].
    injection Hlen as Hlen.
    change (foldl step p ((λ v, Dispatch (Reply v) Silent) <$> v :: replies))
      with (foldl step (step p (Dispatch (Reply v) Silent))
              ((λ v, Dispatch (Reply v) Silent) <$> replies)).
    assert (step p (Dispatch (Reply v) Silent) =
            mkProvider rest (bool_decide (rest ≠ [])) (maxBatchSize p)
              (requestDelay p) (maxTimeout p)
              (trace p ++ [Wait (requestDelay p); Transmit r])) as ->.
    { unfold step. by rewrite Hq. }
    destruct (IH (mkProvider rest (bool_decide (rest ≠ [])) (maxBatchSize p)
                    (requestDelay p) (maxTimeout p)
                    (trace p ++ [Wait (requestDelay p); Transmit r]))) as [Hq' Ht'];
      [done|].
    split; [exact Hq'|]. rewrite Ht'. cbn [requestQueue trace requestDelay].
    rewrite <- app_assoc. done.
Qed.

(** X16.  The queue is first in, first out and drops nothing: when the
    requests [rs] are sent to a provider with an empty queue and the
    transport answers each dispatch, every request is handed to the
    transport exactly once, in the order it was sent, each after the
    delay between requests, and the queue is empty again. *)
Theorem requests_dispatched_in_order rs replies p :
  requestQueue p = [] → Forall queueable rs → length replies = length rs →
  requestQueue (foldl step p ((Call <$> rs) ++
                              ((λ v, Dispatch (Reply v) Silent) <$> replies))) = [] ∧
  trace (foldl step p ((Call <$> rs) ++
                       ((λ v, Dispatch (Reply v) Silent) <$> replies))) =
    trace p ++ (rs ≫= λ r, [Wait (requestDelay p); Transmit r]).
Proof.
  intros Hempty Hrs Hlen. rewrite foldl_app.
  destruct (calls_enqueue rs p Hrs) as (Hq & Ht & Hd).
  rewrite Hempty in Hq. simpl in Hq.
  destruct (replies_dispatch replies (foldl step p (Call <$> rs))) as [Hq' Ht'];
    [by rewrite Hq|].
  split; [exact Hq'|]. by rewrite Ht', Hq, Ht, Hd.
Qed.

Lemma requests_dispatched_in_order_witness :
  let r1 := mkRequest "eth_blockNumber" [] in
  let r2 := mkRequest "eth_call" [mkCall (Some "0xabc") (Some "0x12345678")] in
  trace (foldl step initial
           ([Call r1; Call r2] ++ [Dispatch (Reply (JStr "0x10")) Silent;
                                   Dispatch (Reply (JStr "0x")) Silent]))
  = [Wait 50; Transmit r1; Wait 50; Transmit r2].
Proof.
  cbv zeta.
  apply (requests_dispatched_in_order
           [mkRequest "eth_blockNumber" [];
            mkRequest "eth_call" [mkCall (Some "0xabc") (Some "0x12345678")]]
           [JStr "0x10"; JStr "0x"] initial).
  - reflexivity.
  - repeat constructor.
  - reflexivity.
Defined.

Lemma timeoutMessage_20000 p r :
  maxTimeout p = 20000 →
  timeoutMessage p r = "Request timed out after 20000ms: " +:+ method r.
Proof. unfold timeoutMessage. by intros ->. Qed.

(** X17.  When the transport does not answer within the 20 s timeout, the
    request is not sent again; an [eth_call] is resolved with ["0x"] and an
    [eth_chainId] with ["0x1"], and every other method is rejected with the
    timeout message. *)
Theorem unanswered_request r retry p :
  maxTimeout p = 20000 →
  includes "Batch size is too large" (method r) = false →
  (runRequest r Silent retry p).1 =
    (if String.eqb (method r) "eth_call" then Resolve (JStr "0x")
     else if String.eqb (method r) "eth_chainId" then Resolve (JStr "0x1")
     else Reject ("Request timed out after 20000ms: " +:+ method r)) ∧
  trace (runRequest r Silent retry p).2 =
    trace p ++ [Wait (requestDelay p); Transmit r] ∧
  maxBatchSize (runRequest r Silent retry p).2 = maxBatchSize p ∧
  requestDelay (runRequest r Silent retry p).2 = requestDelay p.
Proof.
  intros Hmt Hmethod. unfold runRequest.
  rewrite (timeoutMessage_20000 p r Hmt).
  assert (includes "Batch size is too large"
            ("Request timed out after 20000ms: " +:+ method r) = false) as ->
    by exact Hmethod.
  assert (includes "timed out"
            ("Request timed out after 20000ms: " +:+ method r) = true) as ->
    by reflexivity.
  destruct (String.eqb (method r) "eth_call"); [done|].
  by destruct (String.eqb (method r) "eth_chainId").
Qed.

Lemma unanswered_request_witness :
  (runRequest (mkRequest "eth_sendRawTransaction" []) Silent Silent initial).1 =
  Reject "Request timed out after 20000ms: eth_sendRawTransaction".
Proof.
  destruct (unanswered_request (mkRequest "eth_sendRawTransaction" []) Silent initial)
    as [H _]; [reflexivity|reflexivity|]. exact H.
Defined.

End Queue.

(* ===================================================================== *)
(** * Further properties of the services                                  *)
(* ===================================================================== *)

Section PixelColor.
Import Web3Utils CanvasService.

(** X18.  [getPixelColor] returns a contract color of six or more digits as
    [#] and the digits; when the contract call fails, the placeholder
    [#EFEFEF] it falls back to is converted like a contract value and comes
    out as [#0FEFEF], which is not the placeholder color. *)
Theorem getPixelColor_results h :
  (6 <= String.length h)%nat →
  getPixelColor (Some ("0x" +:+ h)) = "#" +:+ h ∧
  getPixelColor None = "#0FEFEF" ∧
  getPixelColor None ≠ DEFAULT_COLOR.
Proof.
  intros Hlen. split; [|split; [reflexivity|discriminate]].
  unfold getPixelColor, safeContractCall, bytes3ToHex.
  change ("0x" +:+ h) with (String "0" (String "x" h)).
  cbn. by rewrite Nat.sub_0_r, substring_all, padStart_long.
Qed.

Lemma getPixelColor_results_witness :
  getPixelColor (Some "0x00ff00") = "#00ff00" ∧
  getPixelColor None = "#0FEFEF" ∧
  getPixelColor None ≠ DEFAULT_COLOR.
Proof. apply (getPixelColor_results "00ff00"). simpl. lia. Defined.

End PixelColor.

Section MockSection.
Import CanvasStore MockCanvasService.

Lemma colorAt_palette x y : colorAt x y ∈ colors.
Proof.
  unfold colorAt. change (Z.of_nat (length colors)) with 4.
  assert (0 <= (x + y) `mod` 4 < 4) as Hm by (by apply Z.mod_pos_bound).
  assert (is_Some (colors !! Z.to_nat ((x + y) `mod` 4))) as [c Hc].
  { apply lookup_lt_is_Some. change (length colors) with 4%nat. lia. }
  rewrite Hc. simpl. by eapply list_elem_of_lookup_2.
Qed.

(** X19.  The mock section has exactly [height] rows of [width] cells; the
    cell at offset (x, y) is a pixel with coordinates (startX + x,
    startY + y) whose color is one of the four grays and depends only on
    (x + y) modulo 4. *)
Theorem mock_getCanvasSection_cells startX startY width height :
  length <$> getCanvasSection startX startY width height =
    replicate (Z.to_nat height) (Z.to_nat width) ∧
  ∀ x y, 0 <= x < width → 0 <= y < height →
    ∃ p, cellAt (getCanvasSection startX startY width height) y x = Some (Some p) ∧
         Pixel.x p = startX + x ∧ Pixel.y p = startY + y ∧
         Pixel.color p ∈ colors ∧
         ∀ x' y', (x' + y') `mod` 4 = (x + y) `mod` 4 →
                  0 <= x' < width → 0 <= y' < height →
                  ∃ p', cellAt (getCanvasSection startX startY width height) y' x'
                          = Some (Some p') ∧
                        Pixel.color p' = Pixel.color p.
Proof.
  assert (Hcell : ∀ x y, 0 <= x < width → 0 <= y < height →
            cellAt (getCanvasSection startX startY width height) y x =
            Some (Some (Pixel.mk (startX + x) (startY + y) (colorAt x y) None))).
  { intros x y Hx Hy. unfold getCanvasSection, cellAt, index.
    destruct (Z.ltb_spec y 0); [lia|]. rewrite list_lookup_fmap.
    rewrite (lookup_seqZ_lt 0 height) by lia. simpl.
    destruct (Z.ltb_spec x 0); [lia|]. rewrite list_lookup_fmap.
    rewrite (lookup_seqZ_lt 0 width) by lia. simpl.
    by rewrite !Z2Nat.id by lia. }
  split.
  - unfold getCanvasSection. rewrite <- list_fmap_compose.
    apply list_eq. intros i. rewrite list_lookup_fmap.
    destruct (decide (i < Z.to_nat height)%nat) as [Hi|Hi].
    + rewrite lookup_replicate_2 by done.
      rewrite (lookup_seqZ_lt 0 height i) by lia. simpl.
      by rewrite length_fmap, length_seqZ.
    + rewrite lookup_seqZ_ge by lia. simpl. symmetry.
      apply lookup_replicate_None. lia.
  - intros x y Hx Hy. eexists. split; [by apply Hcell|]. simpl.
    split; [done|]. split; [done|]. split; [apply colorAt_palette|].
    intros x' y' Hmod Hx' Hy'. eexists. split; [by apply Hcell|]. simpl.
    unfold colorAt. change (Z.of_nat (length colors)) with 4. by rewrite Hmod.
Qed.

End MockSection.

Section MockEvents.
Import MockCanvasService.

(** X20.  A mock paint always succeeds.  When its timer fires, the event
    goes to the callbacks registered at that moment, once for each
    registration and in the order of registration: a callback unsubscribed
    in between is not called, however often it had subscribed, and the
    calls of the other callbacks are as they would have been. *)
Theorem mock_paint_delivery x y color suffix now callback s :
  timers s = [] →
  let result := (paintPixel x y color suffix now s).1 in
  let s1 := (paintPixel x y color suffix now s).2 in
  let calls := (timerFires (offPixelPainted callback s1)).1 in
  Web3Utils.success result = true ∧
  (fst <$> calls) = filter (λ cb, cb ≠ callback) (pixelPainted s) ∧
  (callback ∉ (fst <$> calls)) ∧
  Forall (λ call, snd call =
                  (Subscription.mkPainted x y color
                     "0xMockAddress0000000000000000000000000000", now)) calls ∧
  timers (timerFires (offPixelPainted callback s1)).2 = [].
Proof.
  intros Ht. cbv zeta. unfold paintPixel, offPixelPainted, timerFires. simpl.
  rewrite Ht. simpl.
  assert (Hfst : fst <$> ((λ cb : nat, (cb, (Subscription.mkPainted x y color
                     "0xMockAddress0000000000000000000000000000", now))) <$>
                  filter (λ cb, cb ≠ callback) (pixelPainted s)) =
                 filter (λ cb, cb ≠ callback) (pixelPainted s)).
  { rewrite <- list_fmap_compose. apply list_fmap_id. }
  split; [done|]. split; [exact Hfst|]. split.
  - rewrite Hfst. intros [Hne _]%list_elem_of_filter. by apply Hne.
  - split; [|done]. apply Forall_fmap. by apply Forall_true.
Qed.

Lemma mock_paint_delivery_witness :
  fst <$> (timerFires
             (offPixelPainted 7
                (paintPixel 1 2 "#FF0000" "ab12cd34" 1700000000000
                   (onPixelPainted 7 (onPixelPainted 3 (onPixelPainted 7 initial)))).2)).1
  = [3%nat].
Proof.
  destruct (mock_paint_delivery 1 2 "#FF0000" "ab12cd34" 1700000000000 7%nat
              (onPixelPainted 7 (onPixelPainted 3 (onPixelPainted 7 initial)))
              eq_refl) as (_ & H & _).
  rewrite H. reflexivity.
Defined.

End MockEvents.

Section Unsubscribe.
Import Subscription Listener.




(** X22.  Unsubscribing does not cancel a pending reconnect timer: when
    the timer fires and the reconnect succeeds, the listener is attached to
    the contract again, and the next event is handed to the owner's
    callback although the owner has unsubscribed. *)
Theorem unsubscribe_keeps_reconnect_timer s d event :
  timer (sub s) = Some d →
  let s1 := (Listener.step s Unsubscribe).1 in
  let s2 := (Listener.step s1 (Incoming (TimerExpires Reattached))).1 in
  listening s1 = false ∧
  timer (sub s1) = Some d ∧
  listening s2 = true ∧
  (Listener.step s2 (Incoming (PixelPainted event))).2 = [Callback event].
Proof. intros Ht. simpl. rewrite Ht. simpl. done. Qed.

Lemma unsubscribe_keeps_reconnect_timer_witness :
  let s := (Listener.step subscribed (Incoming ProviderError)).1 in
  let s2 := (Listener.step (Listener.step s Unsubscribe).1
               (Incoming (TimerExpires Reattached))).1 in
  listening s2 = true.
Proof.
  cbv zeta.
  destruct (unsubscribe_keeps_reconnect_timer
              (Listener.step subscribed (Incoming ProviderError)).1 2000
              (mkPainted 0 0 "" "")) as (_ & _ & H & _); [reflexivity|exact H].
Defined.

End Unsubscribe.

Section ActivityFeed.
Import UIStore.

(** X23.  The activity feed never holds more than 50 items: after any
    sequence of additions and clearings, starting from a feed of at most 50
    items.  An addition puts the new item first, followed by the items that
    were there, in their order, as far as 50 places go. *)
Theorem activity_feed_bounded activity actions :
  (length activity <= 50)%nat →
  (length (foldl act activity actions) <= 50)%nat ∧
  ∀ event timestamp now,
    ∃ item,
      addActivityItem event timestamp now activity = item :: take 49 activity ∧
      itemX item = Subscription.evX event ∧ itemY item = Subscription.evY event ∧
      itemColor item = Subscription.evColor event.
Proof.
  intros Hlen. split.
  - apply (foldl_invariant (λ l, (length l <= 50)%nat)); [done|].
    intros l a _ Hl. destruct a; simpl; [|lia].
    unfold addActivityItem. rewrite length_take. lia.
  - intros event timestamp now. eexists. split; [reflexivity|done].
Qed.

Lemma activity_feed_bounded_witness :
  (length (foldl act [] [Add (Subscription.mkPainted 1 2 "#FF0000" "0xabc") (Some 4%Z) 5;
                         Clear;
                         Add (Subscription.mkPainted 3 4 "#00FF00" "0xdef") None 6])
   <= 50)%nat.
Proof. apply (activity_feed_bounded [] _). simpl. lia. Defined.

End ActivityFeed.

Section Degradation.
Import ServiceProvider.

Lemma initialize_invariant a s :
  (0 <= retryCount s <= maxRetries ∧
   (isUsingFallback s = true ↔ canvasService s = Some Mock) ∧
   (loading s = false ↔ canvasService s ≠ None)) →
  0 <= retryCount (initializeCanvasService a s) <= maxRetries ∧
  (isUsingFallback (initializeCanvasService a s) = true ↔
   canvasService (initializeCanvasService a s) = Some Mock) ∧
  (loading (initializeCanvasService a s) = false ↔
   canvasService (initializeCanvasService a s) ≠ None).
Proof.
  intros (Hr & Hf & Hl). unfold initializeCanvasService, maxRetries in *.
  destruct (Z.leb_spec 3 (retryCount s)); [simpl; by intuition|].
  destruct (constructorThrows a); [simpl; by intuition|].
  destruct (subscribeThrows a).
  - destruct (Z.ltb_spec (retryCount s) 3); [|lia]. simpl.
    split; [lia|]. by split.
  - simpl. split; [lia|]. split; [by split|]. by split.
Qed.

(** X24.  Through any sequence of initialisation attempts, the retry
    counter stays between 0 and 3, the fallback flag is set exactly when
    the mock service is installed, and the loading flag is cleared exactly
    when some service is installed. *)
Theorem mount_invariant attempts :
  0 <= retryCount (mount attempts initial) <= maxRetries ∧
  (isUsingFallback (mount attempts initial) = true ↔
   canvasService (mount attempts initial) = Some Mock) ∧
  (loading (mount attempts initial) = false ↔
   canvasService (mount attempts initial) ≠ None).
Proof.
  assert (Hinit : 0 <= retryCount initial <= maxRetries ∧
                  (isUsingFallback initial = true ↔ canvasService initial = Some Mock) ∧
                  (loading initial = false ↔ canvasService initial ≠ None))
    by (split; [done|]; split; by split).
  revert Hinit. generalize initial.
  induction attempts as [|a attempts IH]; intros s Hs; simpl; [done|].
  pose proof (initialize_invariant a s Hs) as Hs'.
  destruct (retryCount (initializeCanvasService a s) =? retryCount s); [done|].
  by apply IH.
Qed.

(** X25.  The mock service is installed by the run that follows three
    attempts in a row whose contract test throws, whatever the contract's
    dimension calls returned, and not by these three; an attempt in which
    the service cannot even be constructed installs it at once. *)
Theorem degrade_threshold a1 a2 a3 a4 rest :
  constructorThrows a1 = false → subscribeThrows a1 = true →
  constructorThrows a2 = false → subscribeThrows a2 = true →
  constructorThrows a3 = false → subscribeThrows a3 = true →
  canvasService (mount [a1; a2; a3] initial) = None ∧
  isUsingFallback (mount [a1; a2; a3] initial) = false ∧
  retryCount (mount [a1; a2; a3] initial) = 3 ∧
  canvasService (mount (a1 :: a2 :: a3 :: a4 :: rest) initial) = Some Mock ∧
  isUsingFallback (mount (a1 :: a2 :: a3 :: a4 :: rest) initial) = true ∧
  ∀ a, constructorThrows a = true →
       canvasService (mount (a :: rest) initial) = Some Mock ∧
       isUsingFallback (mount (a :: rest) initial) = true.
Proof.
  intros C1 S1 C2 S2 C3 S3.
  unfold mount, initializeCanvasService. simpl.
  rewrite C1, S1. simpl. rewrite C2, S2. simpl. rewrite C3, S3. simpl.
  do 5 (split; [done|]). intros a Ha. by rewrite Ha.
Qed.

Lemma degrade_threshold_witness :
  canvasService (mount [contractTestThrows; contractTestThrows;
                        contractTestThrows; dimensionCallsFail] initial) = Some Mock.
Proof.
  destruct (degrade_threshold contractTestThrows contractTestThrows
              contractTestThrows dimensionCallsFail [])
    as (_ & _ & _ & H & _); [reflexivity..|exact H].
Defined.

End Degradation.

Section SubRequests.
Import Web3Utils CanvasService.

Lemma foldl_ext_in {A B} (f g : A → B → A) (l : list B) a :
  (∀ a' b, b ∈ l → f a' b = g a' b) → foldl f a l = foldl g a l.
Proof.
  revert a. induction l as [|b l IH]; intros a Hfg; simpl; [done|].
  rewrite Hfg by (by left). apply IH. intros a' b' Hin. apply Hfg. by right.
Qed.

(** X26.  [getCanvasSection] asks the contract only for the sections of
    [subRequests]: each is between 1x1 and 10x10 cells and lies inside the
    requested section, and two contracts that answer these requests alike
    give the same result. *)
Theorem getCanvasSection_requests startX startY width height :
  (∀ r, r ∈ subRequests startX startY width height →
     1 <= reqWidth r <= MAX_CHUNK_SIZE ∧ 1 <= reqHeight r <= MAX_CHUNK_SIZE ∧
     startX <= reqX r ∧ reqX r + reqWidth r <= startX + width ∧
     startY <= reqY r ∧ reqY r + reqHeight r <= startY + height) ∧
  ∀ contract1 contract2 : SectionCall,
    (∀ r, r ∈ subRequests startX startY width height →
       contract1 (reqX r) (reqY r) (reqWidth r) (reqHeight r) =
       contract2 (reqX r) (reqY r) (reqWidth r) (reqHeight r)) →
    getCanvasSection contract1 startX startY width height =
    getCanvasSection contract2 startX startY width height.
Proof.
  split.
  - intros r (chunkY & (chunkX & ->%list_elem_of_singleton & HX)%list_elem_of_bind
                & HY)%list_elem_of_bind.
    apply range_by_spec in HX as [HX _]; [|done|lia].
    apply range_by_spec in HY as [HY _]; [|done|lia].
    unfold MAX_CHUNK_SIZE. simpl. lia.
  - intros contract1 contract2 Hsame. unfold getCanvasSection.
    apply foldl_ext_in. intros res chunkY HY.
    apply foldl_ext_in. intros res' chunkX HX.
    assert (Hin : mkSectionRequest (startX + chunkX) (startY + chunkY)
                    (Z.min MAX_CHUNK_SIZE (width - chunkX))
                    (Z.min MAX_CHUNK_SIZE (height - chunkY))
                  ∈ subRequests startX startY width height).
    { apply list_elem_of_bind. exists chunkY. split; [|done].
      apply list_elem_of_bind. exists chunkX. split; [|done].
      by apply list_elem_of_singleton. }
    apply Hsame in Hin. cbn [reqX reqY reqWidth reqHeight] in Hin.
    unfold fetchSubChunk. by rewrite Hin.
Qed.

End SubRequests.

Section ProviderSettings.
Import Web3Utils.

Lemma step_settings p i :
  maxTimeout (step p i) = maxTimeout p ∧
  requestDelay p <= requestDelay (step p i) <= requestDelay p + 50.
Proof.
  destruct i as [r|first retry]; simpl.
  - unfold send. destruct (knownIssue r); [simpl; lia|].
    destruct (isEnsCall r); simpl; lia.
  - destruct (requestQueue p) as [|r rest]; [lia|].
    unfold runRequest.
    destruct first; simpl; try lia;
      repeat (match goal with |- context [if ?b then _ else _] => destruct b end);
      destruct retry; simpl; lia.
Qed.

(** X27.  Throughout a session of the provider the timeout stays 20 s and
    the delay between requests never shrinks: it starts at 50 ms and each
    input leaves it as it is or adds 50 ms. *)
Theorem session_settings inputs i :
  maxTimeout (session inputs) = 20000 ∧
  50 <= requestDelay (session inputs) ∧
  requestDelay (session inputs) <= requestDelay (step (session inputs) i)
    <= requestDelay (session inputs) + 50.
Proof.
  assert (maxTimeout (session inputs) = 20000 ∧ 50 <= requestDelay (session inputs))
    as [Hmt Hd].
  { unfold session.
    apply (foldl_invariant (λ p, maxTimeout p = 20000 ∧ 50 <= requestDelay p));
      [done|].
    intros p i' _ [Hmt Hd]. destruct (step_settings p i') as [-> Hdelay]. lia. }
  split; [done|]. split; [done|]. apply step_settings.
Qed.

End ProviderSettings.

Section SubscriptionInvariant.
Import Subscription.

Lemma attemptReconnect_wellFormed s :
  isConnected s = false → timer s = None →
  0 <= reconnectAttempts s <= MAX_RECONNECT_ATTEMPTS →
  wellFormed (attemptReconnect s).1.
Proof.
  intros Hc Ht Hr. unfold wellFormed, attemptReconnect, MAX_RECONNECT_ATTEMPTS in *.
  destruct (Z.ltb_spec (reconnectAttempts s) 5); simpl.
  - split; [lia|]. split; [by rewrite Hc|].
    intros d [= <-]. split; [done|]. split; [lia|done].
  - split; [lia|]. split; [by rewrite Hc|]. intros d Hd. by rewrite Ht in Hd.
Qed.

Lemma step_wellFormed s i : wellFormed s → wellFormed (step s i).1.
Proof.
  intros Hwf. pose proof Hwf as (Hr & Hconn & Htimer).
  destruct i as [|r|event]; simpl; [| |exact Hwf].
  - unfold handleConnectionError.
    destruct (isConnected s) eqn:Hc; [|exact Hwf].
    destruct (Hconn eq_refl) as [Hz Ht].
    pose proof (attemptReconnect_wellFormed
                  (mkState false (reconnectAttempts s) (timer s)) eq_refl Ht Hr).
    by destruct (attemptReconnect _).
  - destruct (timer s) as [d|] eqn:Ht; [|exact Hwf].
    destruct (Htimer d eq_refl) as (Hc & Hge & _).
    assert (wellFormed (attemptReconnect
                          (mkState (isConnected s) (reconnectAttempts s) None)).1)
      by (by apply attemptReconnect_wellFormed).
    destruct r; simpl.
    + unfold wellFormed, MAX_RECONNECT_ATTEMPTS. simpl. split; [lia|]. by split.
    + by destruct (attemptReconnect _).
    + by destruct (attemptReconnect _).
Qed.

Lemma run_state s i rest : (run s (i :: rest)).1 = (run (step s i).1 rest).1.
Proof.
  simpl. destruct (step s i) as [s1 e1]. simpl.
  by destruct (run s1 rest) as [s2 e2].
Qed.

(** X28.  In every state the subscription reaches, the attempt counter is
    between 0 and 5; while connected the counter is 0 and no timer is
    pending; and a pending timer belongs to a lost connection, with the
    delay 2000 * 2^(attempts - 1) of the current attempt.  So at most one
    reconnect timer is pending at a time. *)
Theorem subscription_wellFormed inputs : wellFormed (run initial inputs).1.
Proof.
  assert (Hinit : wellFormed initial).
  { unfold wellFormed, MAX_RECONNECT_ATTEMPTS. simpl.
    split; [lia|]. split; [done|]. intros d Hd. discriminate Hd. }
  revert Hinit. generalize initial.
  induction inputs as [|i inputs IH]; intros s Hs; [done|].
  rewrite run_state. by apply IH, step_wellFormed.
Qed.

End SubscriptionInvariant.

Section EnsCalls.
Import Web3Utils.

(** X29.  An [eth_call] whose call data begins with one of the three ENS
    selectors is answered with [null] by [send] itself: the request is not
    queued and nothing is handed to the transport. *)
Theorem send_ens_call selector rest target others p :
  selector ∈ ensSelectors →
  send (mkRequest "eth_call" (mkCall target (Some (selector +:+ rest)) :: others)) p
  = (Resolved JNull, p).
Proof.
  unfold ensSelectors. rewrite !elem_of_cons, elem_of_nil.
  intros [->|[->|[->|[]]]]; unfold send, knownIssue, isEnsCall, startsWith;
    cbn [method params data]; by destruct rest.
Qed.

Lemma send_ens_call_witness :
  send (mkRequest "eth_call"
          [mkCall (Some "0xresolver") (Some "0x3b3b57de00000000")]) initial
  = (Resolved JNull, initial).
Proof.
  apply (send_ens_call "0x3b3b57de" "00000000" (Some "0xresolver") [] initial).
  unfold ensSelectors. rewrite !elem_of_cons. do 2 right. by left.
Defined.

End EnsCalls.
